(** * Keystroke-dynamics verification engine

    A shallow embedding of the PL/pgSQL functions of the keystroke
    repository (the migrations under [supabase/migrations]) and of the
    part of the login page that calls them, together with the properties
    of the engine that hold or fail on that code.

    Numbers.  The columns and arrays of the source are [float]; they are
    modelled by the real numbers of the Standard Library, so every
    statement below is about the exact arithmetic the queries denote and
    not about rounding.  SQL [NULL] is [None]: a nullable column or an
    aggregate over too few rows has type [option R].

    Queries.  A table is the list of its rows; a [WHERE] clause is a
    [filter], [ORDER BY] a stable sort (rows that tie keep the order of
    the table), [LIMIT k] is [firstn k], an inner join is a [flat_map],
    and the [GROUP BY] over the selected sessions collects the rows of
    each session.  Session and user ids are numbers, compared as the
    database compares its uuids.

    Errors.  PostgreSQL analyses a statement of a PL/pgSQL function when
    the statement is first run: it resolves the names and types the
    function calls before it reads any row.  A statement it rejects
    raises its error on every run, whatever the tables hold; such a
    statement is modelled by the error it raises, and what follows it
    in the function as a function of the values it would assign. *)

From Stdlib Require Import String Reals Lra Lia ZArith Bool List.
From Stdlib Require Import Sorted Permutation.
Import ListNotations.

Local Open Scope R_scope.

(** ** SQL helpers *)

Module Sql.

(** [COALESCE(x, d)]. *)
Definition coalesce {A : Type} (x : option A) (d : A) : A :=
  match x with
  | Some v => v
  | None => d
  end.

(** The sum of a list of numbers. *)
Definition sum (l : list R) : R := fold_right Rplus 0 l.

(** [avg(x)]: NULL over zero rows. *)
Definition avg (l : list R) : option R :=
  match l with
  | [] => None
  | _ => Some (sum l / INR (length l))
  end.

(** The values of a nullable column that are not NULL: the inputs an
    aggregate sees. *)
Fixpoint non_null {A : Type} (l : list (option A)) : list A :=
  match l with
  | [] => []
  | Some v :: l' => v :: non_null l'
  | None :: l' => non_null l'
  end.

(** [stddev(x)], which in PostgreSQL is [stddev_samp]: the square root of
    the sample variance, NULL when there are fewer than two rows. *)
Definition stddev (l : list R) : option R :=
  match l with
  | [] | [_] => None
  | _ =>
      let m := sum l / INR (length l) in
      Some (sqrt (sum (map (fun x => (x - m) ^ 2) l) / INR (length l - 1)))
  end.

(** [GREATEST(x, d)] with a non-NULL [d]: NULL arguments are ignored. *)
Definition greatest (x : option R) (d : R) : R :=
  match x with
  | Some v => Rmax v d
  | None => d
  end.

(** [array_length(a, 1)]: NULL for an empty array. *)
Definition array_length {A : Type} (a : list A) : option nat :=
  match a with
  | [] => None
  | _ => Some (length a)
  end.

(** Stable insertion sort, for [ORDER BY]: [leb a b] says that [a] may
    come before [b]. *)
Fixpoint insert_by {A : Type} (leb : A -> A -> bool) (a : A) (l : list A) : list A :=
  match l with
  | [] => [a]
  | b :: l' => if leb a b then a :: l else b :: insert_by leb a l'
  end.

Fixpoint order_by {A : Type} (leb : A -> A -> bool) (l : list A) : list A :=
  match l with
  | [] => []
  | a :: l' => insert_by leb a (order_by leb l')
  end.

(** [DISTINCT ON (key)] over rows already ordered by that key: the first
    row of each run of equal keys is kept. *)
Fixpoint distinct_on {A : Type} (same : A -> A -> bool) (l : list A) : list A :=
  match l with
  | [] => []
  | a :: l' =>
      a :: match distinct_on same l' with
           | [] => []
           | b :: r => if same a b then r else b :: r
           end
  end.

End Sql.

(** ** [validate_keystroke_array] (migration flat_meadow, lines 17-31) *)

(** One element of the array: [CASE WHEN value IS NULL OR value < 0 OR
    value > 5000 THEN 0 ELSE value END]. *)
Definition validate_value (value : option R) : R :=
  match value with
  | None => 0
  | Some v =>
      if Rlt_dec v 0 then 0
      else if Rlt_dec 5000 v then 0
      else v
  end.

Definition validate_keystroke_array (arr : list (option R)) : list R :=
  map validate_value arr.

(** ** [normalize_keystroke_pattern] (migration flat_meadow, lines 34-75) *)

(** A normalized pattern: one row [ARRAY[dwell_z, flight_z]] per
    keystroke.  An entry is NULL only when the two arrays differ in
    length through one of them being empty (see the guard below). *)
Definition pattern : Type := list (option R * option R).

Definition min_std : R := 0.0001.

(** [unnest(dwell_times, flight_times) AS t(d, f)]: the two arrays side
    by side, the shorter one padded with NULLs. *)
Fixpoint unnest2 (dwell_times flight_times : list R) : list (option R * option R) :=
  match dwell_times with
  | [] => map (fun f => (None, Some f)) flight_times
  | d :: ds =>
      match flight_times with
      | [] => map (fun d' => (Some d', None)) dwell_times
      | f :: fs => (Some d, Some f) :: unnest2 ds fs
      end
  end.

(** [(x - mean) / std] where [x] and [mean] may be NULL. *)
Definition zscore (x mean : option R) (std : R) : option R :=
  match x, mean with
  | Some v, Some m => Some ((v - m) / std)
  | _, _ => None
  end.

(** The statistics query: [FROM unnest(dwell_times) d,
    unnest(flight_times) f] is the cross join of the two arrays, and all
    four aggregates run over its rows. *)
Definition statistics_rows (dwell_times flight_times : list R) : list (R * R) :=
  list_prod dwell_times flight_times.

Definition dwell_mean (dwell_times flight_times : list R) : option R :=
  Sql.avg (map fst (statistics_rows dwell_times flight_times)).

Definition dwell_std (dwell_times flight_times : list R) : R :=
  Sql.greatest (Sql.stddev (map fst (statistics_rows dwell_times flight_times))) min_std.

Definition flight_mean (dwell_times flight_times : list R) : option R :=
  Sql.avg (map snd (statistics_rows dwell_times flight_times)).

Definition flight_std (dwell_times flight_times : list R) : R :=
  Sql.greatest (Sql.stddev (map snd (statistics_rows dwell_times flight_times))) min_std.

(** The length guard [IF array_length(dwell_times, 1) !=
    array_length(flight_times, 1)]: the comparison is NULL, and the
    branch not taken, when either array is empty. *)
Definition lengths_differ (dwell_times flight_times : list R) : bool :=
  match Sql.array_length dwell_times, Sql.array_length flight_times with
  | Some a, Some b => negb (Nat.eqb a b)
  | _, _ => false
  end.

(** [None] is the function's [RETURN NULL]. *)
Definition normalize_keystroke_pattern
  (dwell_times flight_times : list (option R)) : option pattern :=
  let dwell_times := validate_keystroke_array dwell_times in
  let flight_times := validate_keystroke_array flight_times in
  if lengths_differ dwell_times flight_times then None
  else
    Some (map (fun t =>
                 (zscore (fst t) (dwell_mean dwell_times flight_times)
                    (dwell_std dwell_times flight_times),
                  zscore (snd t) (flight_mean dwell_times flight_times)
                    (flight_std dwell_times flight_times)))
            (unnest2 dwell_times flight_times)).

(** ** Tables *)

Definition uuid : Type := nat.

(** Timestamps, in microseconds. *)
Definition timestamptz : Type := Z.

Record keystroke_sessions_row : Type := {
  ks_id : uuid;
  ks_user_id : uuid
}.

Record keystroke_data_row : Type := {
  kd_session_id : uuid;
  kd_press_time : R;
  kd_release_time : R;
  kd_dwell_time : option R;
  kd_flight_time : option R;
  kd_created_at : timestamptz
}.

(** [aa_match_score] is the value of [(metadata->>'match_score')::float],
    NULL when the metadata is absent or has no such key. *)
Record auth_attempts_row : Type := {
  aa_user_id : uuid;
  aa_success : bool;
  aa_keystroke_match : bool;
  aa_location_match : bool;
  aa_match_score : option R;
  aa_attempted_at : timestamptz
}.

Record database : Type := {
  keystroke_sessions : list keystroke_sessions_row;
  keystroke_data : list keystroke_data_row;
  auth_attempts : list auth_attempts_row
}.

(** ** [calculate_adaptive_threshold] (migration square_silence, lines 65-92) *)

(** [interval '7 days']. *)
Definition seven_days : Z := 7 * 24 * 3600 * 1000000.

(** [ORDER BY aa.attempted_at DESC]. *)
Definition attempted_at_desc (a b : auth_attempts_row) : bool :=
  (aa_attempted_at b <=? aa_attempted_at a)%Z.

(** The rows the subquery [recent_scores] is computed from. *)
Definition recent_attempts_rows
  (db : database) (now : timestamptz) (user_id : uuid) (recent_attempts : nat)
  : list auth_attempts_row :=
  firstn recent_attempts
    (Sql.order_by attempted_at_desc
       (filter (fun aa =>
                  Nat.eqb (aa_user_id aa) user_id
                  && aa_success aa
                  && (now - seven_days <? aa_attempted_at aa)%Z)
          (auth_attempts db))).

Definition recent_scores
  (db : database) (now : timestamptz) (user_id : uuid) (recent_attempts : nat)
  : list (option R) :=
  map aa_match_score (recent_attempts_rows db now user_id recent_attempts).

(** [recent_attempts] defaults to 10 at the call in
    [verify_keystroke_pattern]. *)
Definition calculate_adaptive_threshold
  (db : database) (now : timestamptz) (user_id : uuid) (recent_attempts : nat) : R :=
  let threshold :=
    option_map (fun a => a * 0.8)
      (Sql.avg (Sql.non_null (recent_scores db now user_id recent_attempts))) in
  Sql.coalesce threshold 0.7.

(** ** Calls and their errors *)

(** The errors a call ends in: a [RAISE EXCEPTION] of the function, or
    one of the two errors PostgreSQL raises on the statements below. *)
Inductive sql_error : Type :=
| raise_exception (message : string)
| ambiguous_column (name : string)
| undefined_function (signature : string).

Definition quotation_mark : string := String (Ascii.ascii_of_nat 34) EmptyString.

(** [SQLERRM], the message of the error. *)
Definition sqlerrm (e : sql_error) : string :=
  match e with
  | raise_exception message => message
  | ambiguous_column name =>
      "column reference " ++ quotation_mark ++ name ++ quotation_mark ++ " is ambiguous"
  | undefined_function signature => "function " ++ signature ++ " does not exist"
  end.

(** A call either raises or returns. *)
Inductive call_result (J : Type) : Type :=
| raised (error : sql_error)
| returned (json : J).

Arguments raised {J} error.
Arguments returned {J} json.

(** ** [verify_keystroke_pattern] (part_005) *)

(** *** Reading the current session (lines 46-65)

    The statement filters [keystroke_data] by [WHERE session_id =
    verify_keystroke_pattern.session_id] (line 58).  The name on the
    left has no table in front of it, and [session_id] is a column of
    [keystroke_data] and a parameter of the function at once (line 17).
    PL/pgSQL settles such a name by [plpgsql.variable_conflict]; the
    function has no [#variable_conflict] line and its [SET] clause
    names [search_path] only, so the default, [error], applies:
    PostgreSQL rejects the statement, and the call raises here whatever
    the tables hold.  The header of migration muddy_gate records this
    error for an earlier version, which it repaired by writing
    [kd.session_id]. *)
Definition current_keystrokes (db : database) (session_id : uuid)
  : call_result (list R * list R) :=
  raised (ambiguous_column "session_id").

(** [CASE WHEN dwell_time IS NULL OR dwell_time <= 0 THEN 0 ELSE dwell_time END]
    (lines 92-95, and 49-52 in the statement above). *)
Definition sanitize_dwell (dwell_time : option R) : R :=
  match dwell_time with
  | None => 0
  | Some v => if Rle_dec v 0 then 0 else v
  end.

(** [CASE WHEN flight_time IS NULL OR flight_time < 0 THEN 0 ELSE flight_time END]. *)
Definition sanitize_flight (flight_time : option R) : R :=
  match flight_time with
  | None => 0
  | Some v => if Rlt_dec v 0 then 0 else v
  end.

(** [ORDER BY created_at]. *)
Definition created_at_asc (a b : keystroke_data_row) : bool :=
  (kd_created_at a <=? kd_created_at b)%Z.

(** *** Selecting the historical sessions (lines 77-109) *)

(** The join [keystroke_sessions ks INNER JOIN auth_attempts aa ON
    aa.user_id = ks.user_id] with its [WHERE] clause. *)
Definition successful_session_rows (db : database) (user_id session_id : uuid)
  : list (keystroke_sessions_row * auth_attempts_row) :=
  filter (fun r =>
            Nat.eqb (ks_user_id (fst r)) user_id
            && negb (Nat.eqb (ks_id (fst r)) session_id)
            && aa_success (snd r))
    (flat_map (fun ks =>
                 map (fun aa => (ks, aa))
                   (filter (fun aa => Nat.eqb (aa_user_id aa) (ks_user_id ks))
                      (auth_attempts db)))
       (keystroke_sessions db)).

(** [ORDER BY ks.id, aa.attempted_at DESC]. *)
Definition by_id_then_recent (a b : keystroke_sessions_row * auth_attempts_row) : bool :=
  Nat.ltb (ks_id (fst a)) (ks_id (fst b))
  || (Nat.eqb (ks_id (fst a)) (ks_id (fst b))
      && (aa_attempted_at (snd b) <=? aa_attempted_at (snd a))%Z).

Definition same_session (a b : keystroke_sessions_row * auth_attempts_row) : bool :=
  Nat.eqb (ks_id (fst a)) (ks_id (fst b)).

(** The CTE [historical_sessions]: [SELECT DISTINCT ON (ks.id) ks.id ...
    ORDER BY ks.id, aa.attempted_at DESC LIMIT 5]. *)
Definition historical_sessions (db : database) (user_id session_id : uuid) : list uuid :=
  map (fun r => ks_id (fst r))
    (firstn 5
       (Sql.distinct_on same_session
          (Sql.order_by by_id_then_recent
             (successful_session_rows db user_id session_id)))).

(** The CTE [historical_keystrokes]: the keystrokes of each selected
    session, kept when their number is [pattern_length].  A session
    without keystrokes has no row in the inner join, hence no group. *)
Definition historical_keystrokes
  (db : database) (user_id session_id : uuid) (pattern_length : nat)
  : list (uuid * (list R * list R)) :=
  flat_map (fun hs =>
              let rows :=
                Sql.order_by created_at_asc
                  (filter (fun kd => Nat.eqb (kd_session_id kd) hs) (keystroke_data db)) in
              match rows with
              | [] => []
              | _ =>
                  if Nat.eqb (length rows) pattern_length
                  then [(hs, (map (fun kd => sanitize_dwell (kd_dwell_time kd)) rows,
                              map (fun kd => sanitize_flight (kd_flight_time kd)) rows))]
                  else []
              end)
    (historical_sessions db user_id session_id).

(** [array_agg(normalize_keystroke_pattern(dwell_times, flight_times))];
    the empty list is the NULL that [array_agg] gives over no row.  The
    two arrays of a session come from the same rows, so the normalizer
    never returns NULL here (lemma [normalize_same_length] below) and
    the [None] branch is not reached. *)
Definition historical_patterns
  (db : database) (user_id session_id : uuid) (pattern_length : nat) : list pattern :=
  flat_map (fun hk =>
              match normalize_keystroke_pattern
                      (map Some (fst (snd hk))) (map Some (snd (snd hk))) with
              | Some p => [p]
              | None => []
              end)
    (historical_keystrokes db user_id session_id pattern_length).

(** *** Scoring (lines 128-160) *)

(** The composite type [keystroke_match_details] (square_silence, lines 17-22). *)
Record keystroke_match_details : Type := {
  dwell_time_match : R;
  flight_time_match : R;
  pattern_consistency : R;
  overall_confidence : R
}.

(** The statement [SELECT ... INTO match_details] (lines 130-145).
    [historical_patterns] is declared [float[][]] (line 26), which to
    PostgreSQL is the type [double precision[]] of every array of
    floats, and [unnest] returns the elements of an array one by one,
    whatever its dimensions.  So [unnest(historical_patterns) AS
    historical_pattern] (line 142) is a column of [double precision],
    and line 143 applies [unnest] to that column.  There is no
    [unnest(double precision)]: PostgreSQL rejects the statement when
    it analyses it (it would next reject [c[1]], a subscript on the row
    alias [c] of line 141), and the statement raises whatever the
    patterns hold. *)
Definition select_match_details
  (pattern_length : nat) (current_pattern : option pattern)
  (historical_patterns : list pattern) : call_result keystroke_match_details :=
  raised (undefined_function "unnest(double precision)").

(** The weighted score (lines 148-152); the fields of [match_details]
    are not NULL, so the [COALESCE]s around them in the source are the
    identity. *)
Definition weighted_score (match_details : keystroke_match_details) : R :=
  (dwell_time_match match_details * 0.4
   + flight_time_match match_details * 0.4
   + pattern_consistency match_details * 0.2)
  * overall_confidence match_details.

(** *** The recommendation (lines 174-178) *)

Inductive recommendation : Type := accept | challenge | reject.

Definition recommend (match_score adaptive_threshold : R) : recommendation :=
  if Rge_dec match_score adaptive_threshold then accept
  else if Rge_dec match_score (adaptive_threshold * 0.8) then challenge
  else reject.

(** *** The function (lines 15-181) *)

(** The three shapes of JSON object the function builds: an error
    object (lines 69-72, and 156-159 in the exception handler), the
    object for a call without history (lines 119-125), and the full
    result (lines 163-179). *)
Inductive verify_json : Type :=
| json_error (match_score : R) (error : string)
| json_no_history (match_score threshold : R) (reason : string)
| json_result (match_score threshold : R) (details : keystroke_match_details)
    (patterns_compared pattern_length : nat) (rec : recommendation).

(** The keys of the object. *)
Definition json_match_score (j : verify_json) : R :=
  match j with
  | json_error m _ => m
  | json_no_history m _ _ => m
  | json_result m _ _ _ _ _ => m
  end.

Definition json_threshold (j : verify_json) : option R :=
  match j with
  | json_error _ _ => None
  | json_no_history _ t _ => Some t
  | json_result _ t _ _ _ _ => Some t
  end.

Definition json_error_message (j : verify_json) : option string :=
  match j with
  | json_error _ e => Some e
  | _ => None
  end.

Definition json_reason (j : verify_json) : option string :=
  match j with
  | json_no_history _ _ r => Some r
  | _ => None
  end.

Definition json_details (j : verify_json) : option keystroke_match_details :=
  match j with
  | json_result _ _ d _ _ _ => Some d
  | _ => None
  end.

Definition json_recommendation (j : verify_json) : option recommendation :=
  match j with
  | json_result _ _ _ _ _ r => Some r
  | _ => None
  end.

(** Lines 128-179: the scoring block, whose handler ([EXCEPTION WHEN
    OTHERS], lines 154-159) turns an error of the statement into an
    error object, and the full result built after it. *)
Definition score_patterns
  (adaptive_threshold : R) (pattern_length : nat) (current_pattern : option pattern)
  (historical_patterns : list pattern) : verify_json :=
  match select_match_details pattern_length current_pattern historical_patterns with
  | raised e => json_error 0 ("Error calculating pattern match: " ++ sqlerrm e)
  | returned match_details =>
      let match_score := weighted_score match_details in
      json_result match_score adaptive_threshold match_details
        (length historical_patterns) pattern_length
        (recommend match_score adaptive_threshold)
  end.

(** Lines 117-179: the test for an empty history, then the scoring. *)
Definition compare_patterns
  (adaptive_threshold : R) (pattern_length : nat) (current_pattern : option pattern)
  (historical_patterns : list pattern) : verify_json :=
  match historical_patterns with
  | [] =>
      json_no_history 0.5 adaptive_threshold
        "No historical patterns available for comparison"
  | _ => score_patterns adaptive_threshold pattern_length current_pattern historical_patterns
  end.

(** Lines 67-179: what follows the reading of the current session, as a
    function of the two arrays that statement assigns. *)
Definition verify_current_session
  (db : database) (user_id session_id : uuid) (adaptive_threshold : R)
  (current_dwell_times current_flight_times : list R) : verify_json :=
  match Sql.array_length current_dwell_times with
  | None | Some O => json_error 0 "No valid keystroke data found for current session"
  | Some pattern_length =>
      let historical_patterns :=
        historical_patterns db user_id session_id pattern_length in
      let current_pattern :=
        normalize_keystroke_pattern
          (map Some current_dwell_times) (map Some current_flight_times) in
      compare_patterns adaptive_threshold pattern_length current_pattern historical_patterns
  end.

(** The function; [auth_uid] is [auth.uid()], [now] is [now()]. *)
Definition verify_keystroke_pattern
  (db : database) (auth_uid : option uuid) (now : timestamptz)
  (user_id session_id : uuid) : call_result verify_json :=
  match auth_uid with
  | None => raised (raise_exception "Unauthorized access")
  | Some requesting_user =>
      if negb (Nat.eqb requesting_user user_id)
      then raised (raise_exception "Unauthorized access")
      else
        let adaptive_threshold := calculate_adaptive_threshold db now user_id 10 in
        match current_keystrokes db session_id with
        | raised e => raised e
        | returned (current_dwell_times, current_flight_times) =>
            returned
              (verify_current_session db user_id session_id adaptive_threshold
                 current_dwell_times current_flight_times)
        end
  end.

(** ** [verify_keystroke_pattern] of migration flat_meadow (lines 78-221)

    The version defined next to the validator and the normalizer.  It
    selects the sessions as part_005 does and passes the raw columns
    on. *)

Module FlatMeadow.

Inductive verify_json : Type :=
| json_error (match_score : R) (error : string)
| json_insufficient (match_score : R) (reason : string)
    (current_length : option nat) (historical_patterns : nat)
| json_result (match_score : R) (patterns_compared pattern_length : nat)
    (rec : recommendation).

Definition json_match_score (j : verify_json) : R :=
  match j with
  | json_error m _ => m
  | json_insufficient m _ _ _ => m
  | json_result m _ _ _ => m
  end.

(** The statement that reads the current session (lines 105-118):
    [dwell_times], [flight_times] and [keystroke_count].  Its line 111
    is line 58 of part_005, [WHERE session_id =
    verify_keystroke_pattern.session_id], and raises the same error. *)
Definition current_keystrokes (db : database) (session_id : uuid)
  : call_result (list (option R) * list (option R) * nat) :=
  raised (ambiguous_column "session_id").

(** The CTE [historical_sessions] (lines 129-140): the same rows as in
    part_005, with the date of the attempt kept. *)
Definition historical_sessions (db : database) (user_id session_id : uuid)
  : list (uuid * timestamptz) :=
  map (fun r => (ks_id (fst r), aa_attempted_at (snd r)))
    (firstn 5
       (Sql.distinct_on same_session
          (Sql.order_by by_id_then_recent
             (successful_session_rows db user_id session_id)))).

Definition session_attempted_at_desc
  (a b : uuid * timestamptz * (list (option R) * list (option R))) : bool :=
  (snd (fst b) <=? snd (fst a))%Z.

(** The CTE [historical_keystrokes] (lines 141-151): [HAVING count( * ) =
    pattern_length], then [ORDER BY hs.attempted_at DESC]. *)
Definition historical_keystrokes
  (db : database) (user_id session_id : uuid) (pattern_length : nat)
  : list (uuid * timestamptz * (list (option R) * list (option R))) :=
  Sql.order_by session_attempted_at_desc
    (flat_map (fun hs =>
                 let rows :=
                   Sql.order_by created_at_asc
                     (filter (fun kd => Nat.eqb (kd_session_id kd) (fst hs))
                        (keystroke_data db)) in
                 match rows with
                 | [] => []
                 | _ =>
                     if Nat.eqb (length rows) pattern_length
                     then [(hs, (map kd_dwell_time rows, map kd_flight_time rows))]
                     else []
                 end)
       (historical_sessions db user_id session_id)).

(** [historical_patterns] (lines 152-163); as in part_005 the normalizer
    is given two arrays of one length and returns no NULL. *)
Definition historical_patterns
  (db : database) (user_id session_id : uuid) (pattern_length : nat) : list pattern :=
  flat_map (fun hk =>
              match normalize_keystroke_pattern
                      (map Some (validate_keystroke_array (fst (snd hk))))
                      (map Some (validate_keystroke_array (snd (snd hk)))) with
              | Some p => [p]
              | None => []
              end)
    (filter (fun hk => Nat.eqb (length (fst (snd hk))) pattern_length
                       && Nat.eqb (length (snd (snd hk))) pattern_length)
       (historical_keystrokes db user_id session_id pattern_length)).

(** The scoring statement (lines 185-196), [avg(similarity)] over the
    CTE [pattern_matches].  Its line 190 applies [unnest] to [hp], which
    line 189 makes a column of [double precision] as line 142 of
    part_005 makes [historical_pattern], and the statement raises the
    same error. *)
Definition select_match_score
  (pattern_length : nat) (current_pattern : pattern) (historical_patterns : list pattern)
  : call_result (option R) :=
  raised (undefined_function "unnest(double precision)").

(** The recommendation (lines 213-217), with fixed thresholds. *)
Definition recommend (match_score : R) : recommendation :=
  if Rge_dec match_score 0.7 then accept
  else if Rge_dec match_score 0.5 then challenge
  else reject.

(** Lines 183-219: the scoring block with its handler (lines 200-205)
    and the result. *)
Definition score_patterns
  (pattern_length : nat) (current_pattern : pattern) (historical_patterns : list pattern)
  : verify_json :=
  match select_match_score pattern_length current_pattern historical_patterns with
  | raised e => json_error 0 ("Error calculating match: " ++ sqlerrm e)
  | returned avg_similarity =>
      let match_score := Sql.coalesce avg_similarity 0 in
      json_result match_score (length historical_patterns) pattern_length
        (recommend match_score)
  end.

(** Lines 120-219: what follows the reading of the current session, as
    a function of the values that statement assigns. *)
Definition verify_current_session
  (db : database) (user_id session_id : uuid)
  (current_dwell_times current_flight_times : list (option R)) (pattern_length : nat)
  : verify_json :=
  match pattern_length with
  | O => json_error 0 "No keystroke data found for current session"
  | _ =>
      let historical_patterns :=
        historical_patterns db user_id session_id pattern_length in
      match normalize_keystroke_pattern current_dwell_times current_flight_times,
            historical_patterns with
      | None, _ | _, [] =>
          json_insufficient 0.5 "Insufficient data for comparison"
            (Sql.array_length current_dwell_times)
            (length historical_patterns)
      | Some current_pattern, _ =>
          score_patterns pattern_length current_pattern historical_patterns
      end
  end.

Definition verify_keystroke_pattern
  (db : database) (auth_uid : option uuid) (user_id session_id : uuid)
  : call_result verify_json :=
  match auth_uid with
  | None => raised (raise_exception "Unauthorized access")
  | Some requesting_user =>
      if negb (Nat.eqb requesting_user user_id)
      then raised (raise_exception "Unauthorized access")
      else
        match current_keystrokes db session_id with
        | raised e => raised e
        | returned (current_dwell_times, current_flight_times, pattern_length) =>
            returned
              (verify_current_session db user_id session_id
                 current_dwell_times current_flight_times pattern_length)
        end
  end.

End FlatMeadow.

(** ** [normalize_keystroke_pattern] of migration square_silence (lines 25-62)

    The earlier normalizer: the statistics of each array are taken over
    that array alone, and the result interleaves the dwell and flight
    z-scores; a deviation that is zero or NULL gives 0. *)

Module SquareSilence.

(** [avg] and [stddev] over the elements of one array. *)
Definition mean_of (times : list (option R)) : option R :=
  Sql.avg (Sql.non_null times).

Definition std_of (times : list (option R)) : option R :=
  Sql.stddev (Sql.non_null times).

(** [CASE WHEN std > 0 THEN (times[k] - mean) / std ELSE 0 END]. *)
Definition normalized_value (times : list (option R)) (mean std : option R) (k : nat)
  : option R :=
  match std with
  | Some s =>
      if Rgt_dec s 0 then
        match nth k times None, mean with
        | Some x, Some m => Some ((x - m) / s)
        | _, _ => None
        end
      else Some 0
  | None => Some 0
  end.

Definition normalize_keystroke_pattern
  (dwell_times flight_times : list (option R)) : list (option R) :=
  flat_map (fun k =>
              [normalized_value dwell_times (mean_of dwell_times)
                 (std_of dwell_times) k;
               normalized_value flight_times (mean_of flight_times)
                 (std_of flight_times) k])
    (seq 0 (length dwell_times)).

End SquareSilence.

(** ** The trigger [calculate_keystroke_times] (flat_meadow, lines 307-333) *)

Definition created_at_desc (a b : keystroke_data_row) : bool :=
  (kd_created_at b <=? kd_created_at a)%Z.

(** The row the trigger returns for the row [NEW] about to be inserted
    into the table [existing]. *)
Definition calculate_keystroke_times
  (existing : list keystroke_data_row) (NEW : keystroke_data_row) : keystroke_data_row :=
  let previous :=
    Sql.order_by created_at_desc
      (filter (fun kd => Nat.eqb (kd_session_id kd) (kd_session_id NEW)
                         && (kd_created_at kd <? kd_created_at NEW)%Z)
         existing) in
  {| kd_session_id := kd_session_id NEW;
     kd_press_time := kd_press_time NEW;
     kd_release_time := kd_release_time NEW;
     kd_dwell_time := Some (kd_release_time NEW - kd_press_time NEW);
     kd_flight_time :=
       match previous with
       | [] => kd_flight_time NEW
       | p :: _ => Some (kd_press_time NEW - kd_release_time p)
       end;
     kd_created_at := kd_created_at NEW |}.

(** [INSERT INTO keystroke_data], the trigger firing before each row. *)
Definition insert_keystroke_data (db : database) (rows : list keystroke_data_row) : database :=
  fold_left (fun d NEW =>
               {| keystroke_sessions := keystroke_sessions d;
                  keystroke_data :=
                    keystroke_data d ++ [calculate_keystroke_times (keystroke_data d) NEW];
                  auth_attempts := auth_attempts d |})
    rows db.

Definition insert_keystroke_session (db : database) (row : keystroke_sessions_row) : database :=
  {| keystroke_sessions := keystroke_sessions db ++ [row];
     keystroke_data := keystroke_data db;
     auth_attempts := auth_attempts db |}.

Definition insert_auth_attempt (db : database) (row : auth_attempts_row) : database :=
  {| keystroke_sessions := keystroke_sessions db;
     keystroke_data := keystroke_data db;
     auth_attempts := auth_attempts db ++ [row] |}.

(** ** The pages (part_000 is the login page, [SignupPage.tsx]) *)

(** [KeystrokeData] of the client ([types.ts]). *)
Record KeystrokeData : Type := {
  key : string;
  press_time : R;
  release_time : R
}.

Inductive navigation : Type := to_dashboard | to_otp.

(** The end of a login: an error message shown on the page, or a
    navigation. *)
Inductive login_end : Type :=
| login_error (message : string)
| login_navigate (target : navigation).

(** The row the login page inserts into [auth_attempts] (part_000, lines
    108-117): no [metadata] is given. *)
Definition login_attempt (user : uuid) (matchScore : R) (attempted_at : timestamptz)
  : auth_attempts_row :=
  {| aa_user_id := user;
     aa_success := true;
     aa_keystroke_match := if Rge_dec matchScore 0.7 then true else false;
     aa_location_match := true;
     aa_match_score := None;
     aa_attempted_at := attempted_at |}.

(** What the login page does with the answer of the RPC (lines 102-129);
    [match_score] reads the key [match_score] of the object. *)
Definition after_verification {J : Type} (match_score : J -> R)
  (db : database) (user : uuid) (attempted_at : timestamptz) (answer : call_result J)
  : database * login_end :=
  match answer with
  | raised _ => (db, login_error "Failed to verify keystroke pattern")
  | returned verificationData =>
      let matchScore := match_score verificationData in
      (insert_auth_attempt db (login_attempt user matchScore attempted_at),
       login_navigate (if Rge_dec matchScore 0.7 then to_dashboard else to_otp))
  end.

(** [debouncedLogin] once the password is accepted (lines 62-129):
    [user] is [authData.user.id], [session] the id of the new session,
    [now] the clock of the database and [attempted_at] the one of the
    client.  [login_database] is the database the RPC runs on, after the
    session and its keystrokes are inserted. *)
Definition login_database
  (db : database) (user session : uuid) (now : timestamptz)
  (keystrokes : list KeystrokeData) : database :=
  insert_keystroke_data
    (insert_keystroke_session db {| ks_id := session; ks_user_id := user |})
    (map (fun stroke =>
            {| kd_session_id := session;
               kd_press_time := press_time stroke;
               kd_release_time := release_time stroke;
               kd_dwell_time := Some (release_time stroke - press_time stroke);
               kd_flight_time := None;
               kd_created_at := now |})
       keystrokes).

Definition debouncedLogin
  (db : database) (user session : uuid) (now attempted_at : timestamptz)
  (keystrokes : list KeystrokeData) : database * login_end :=
  let db2 := login_database db user session now keystrokes in
  after_verification json_match_score db2 user attempted_at
    (verify_keystroke_pattern db2 (Some user) now user session).

(** The same login when the RPC is the version of flat_meadow. *)
Definition debouncedLogin_flat_meadow
  (db : database) (user session : uuid) (now attempted_at : timestamptz)
  (keystrokes : list KeystrokeData) : database * login_end :=
  let db2 := login_database db user session now keystrokes in
  after_verification FlatMeadow.json_match_score db2 user attempted_at
    (FlatMeadow.verify_keystroke_pattern db2 (Some user) user session).

(** The database writes of the signup page ([SignupPage.tsx], lines
    115-140): a session and its keystrokes, no authentication attempt. *)
Definition signup
  (db : database) (user session : uuid) (now : timestamptz)
  (keystrokes : list KeystrokeData) : database :=
  insert_keystroke_data
    (insert_keystroke_session db {| ks_id := session; ks_user_id := user |})
    (map (fun stroke =>
            {| kd_session_id := session;
               kd_press_time := press_time stroke;
               kd_release_time := release_time stroke;
               kd_dwell_time := None;
               kd_flight_time := None;
               kd_created_at := now |})
       keystrokes).

Definition empty_database : database :=
  {| keystroke_sessions := []; keystroke_data := []; auth_attempts := [] |}.


(** The databases the two pages can produce from an empty one, whatever
    the verification answers: every database above and, beyond them,
    the ones a login would leave if the RPC returned an object. *)
Inductive reachable : database -> Prop :=
| reachable_empty : reachable empty_database
| reachable_signup db user session now keystrokes :
    reachable db -> reachable (signup db user session now keystrokes)
| reachable_login db user session now attempted_at keystrokes
    (answer : call_result verify_json) :
    reachable db ->
    reachable
      (fst (after_verification json_match_score
              (login_database db user session now keystrokes) user attempted_at answer))
| reachable_login_flat_meadow db user session now attempted_at keystrokes
    (answer : call_result FlatMeadow.verify_json) :
    reachable db ->
    reachable
      (fst (after_verification FlatMeadow.json_match_score
              (login_database db user session now keystrokes) user attempted_at answer)).

(** ** What the specification says, in its own words *)

(** Section 4.2: an entry of the validated sequence against the raw
    entry it comes from. *)
Inductive validated_entry : option R -> R -> Prop :=
| entry_null : validated_entry None 0
| entry_negative v : v < 0 -> validated_entry (Some v) 0
| entry_over_range v : 5000 < v -> validated_entry (Some v) 0
| entry_unchanged v : 0 <= v <= 5000 -> validated_entry (Some v) v.

(** Section 4.6: the attempts the estimator may look at, and what it
    means for [rows] to be the most recent of the [candidates], at most
    [cap] of them. *)
Definition qualifying (now : timestamptz) (user_id : uuid) (aa : auth_attempts_row) : bool :=
  Nat.eqb (aa_user_id aa) user_id
  && aa_success aa
  && (now - seven_days <? aa_attempted_at aa)%Z.

Definition most_recent_of (cap : nat) (candidates rows : list auth_attempts_row) : Prop :=
  exists rest,
    Permutation candidates (rows ++ rest)
    /\ length rows = Nat.min cap (length candidates)
    /\ Forall (fun r =>
                 Forall (fun x => (aa_attempted_at x <= aa_attempted_at r)%Z) rest)
         rows.

(** [threshold = 0.8 * mean(scores)], or the default 0.7 without scores. *)
Definition threshold_of_scores (scores : list R) : R :=
  match scores with
  | [] => 0.7
  | _ => 0.8 * (Sql.sum scores / INR (length scores))
  end.

(** An attempt row as the login page writes it: successful, and with
    no match score in its metadata. *)
Definition written_by_login (aa : auth_attempts_row) : Prop :=
  aa_success aa = true /\ aa_match_score aa = None.

(** The samples recorded for a session. *)
Definition session_samples (db : database) (session_id : uuid) : list keystroke_data_row :=
  filter (fun kd => Nat.eqb (kd_session_id kd) session_id) (keystroke_data db).

(** Section 4.3: the mean and the standard deviation of one series, the
    latter as the sample deviation ([stddev] over the series alone) and
    as the population deviation, and the z-score they give. *)
Definition series_mean (series : list R) : R :=
  Sql.sum series / INR (length series).

Definition series_sample_std (series : list R) : R :=
  sqrt (Sql.sum (map (fun x => (x - series_mean series) ^ 2) series)
        / INR (length series - 1)).

Definition series_population_std (series : list R) : R :=
  sqrt (Sql.sum (map (fun x => (x - series_mean series) ^ 2) series)
        / INR (length series)).

Definition series_zscore (series : list R) (std x : R) : R :=
  (x - series_mean series) / Rmax std min_std.

(** Section 4.4: the sessions of the subject other than the current one,
    counted when the subject has a successful attempt, and among them
    the ones whose sample length is [n]. *)
Definition has_successful_attempt (db : database) (user_id : uuid) : bool :=
  existsb (fun aa => Nat.eqb (aa_user_id aa) user_id && aa_success aa) (auth_attempts db).

Definition candidate_sessions (db : database) (user_id session_id : uuid) : list uuid :=
  map ks_id
    (filter (fun ks =>
               Nat.eqb (ks_user_id ks) user_id
               && negb (Nat.eqb (ks_id ks) session_id)
               && has_successful_attempt db user_id)
       (keystroke_sessions db)).

Definition qualifying_sessions (db : database) (user_id session_id : uuid) (n : nat)
  : list uuid :=
  filter (fun s => Nat.eqb (length (session_samples db s)) n)
    (candidate_sessions db user_id session_id).

(** Section 4.5 and 8: patterns of real z-scores, their squared
    distances feature by feature and their Euclidean distance. *)
Definition pattern_of (p : list (R * R)) : pattern :=
  map (fun r => (Some (fst r), Some (snd r))) p.




(** ** Auxiliary notions *)

(** Rows of the join compared by their session id. *)
Definition id_le (a b : keystroke_sessions_row * auth_attempts_row) : Prop :=
  (ks_id (fst a) <= ks_id (fst b))%nat.

Definition id_lt (a b : keystroke_sessions_row * auth_attempts_row) : Prop :=
  (ks_id (fst a) < ks_id (fst b))%nat.

(** ** Example databases *)

(** A keystroke row with the dwell time the trigger gives it. *)
Definition keystroke_row (session_id : uuid) (press release : R) (flight : option R)
  (created_at : timestamptz) : keystroke_data_row :=
  {| kd_session_id := session_id;
     kd_press_time := press;
     kd_release_time := release;
     kd_dwell_time := Some (release - press);
     kd_flight_time := flight;
     kd_created_at := created_at |}.

(** A session without samples: subject 1 has logged in without a
    keystroke on record. *)
Definition empty_session_database : database :=
  {| keystroke_sessions := [{| ks_id := 1%nat; ks_user_id := 1%nat |}];
     keystroke_data := [];
     auth_attempts := [] |}.

(** The first check of subject 1: one session, one keystroke, no attempt yet. *)
Definition first_check_database : database :=
  {| keystroke_sessions := [{| ks_id := 1%nat; ks_user_id := 1%nat |}];
     keystroke_data := [keystroke_row 1%nat 0 100 None 0%Z];
     auth_attempts := [] |}.

(** Subject 1 types two keystrokes in session 1, logs in, and types the
    same two keystrokes in session 2. *)
Definition repeated_typing_database : database :=
  {| keystroke_sessions :=
       [{| ks_id := 1%nat; ks_user_id := 1%nat |};
        {| ks_id := 2%nat; ks_user_id := 1%nat |}];
     keystroke_data :=
       [keystroke_row 1%nat 0 100 None 1%Z;
        keystroke_row 1%nat 130 250 (Some 30) 2%Z;
        keystroke_row 2%nat 0 100 None 11%Z;
        keystroke_row 2%nat 130 250 (Some 30) 12%Z];
     auth_attempts :=
       [{| aa_user_id := 1%nat; aa_success := true; aa_keystroke_match := false;
           aa_location_match := true; aa_match_score := None;
           aa_attempted_at := 5%Z |}] |}.

(** The two series of session 1 above, which are those of session 2. *)
Definition repeated_dwell_times : list R :=
  [sanitize_dwell (Some (100 - 0)); sanitize_dwell (Some (250 - 130))].

Definition repeated_flight_times : list R :=
  [sanitize_flight None; sanitize_flight (Some 30)].

(** Subject 1 has twelve sessions and one successful attempt: two
    keystrokes in each of the sessions 1 to 5, one keystroke in each of
    the sessions 6 to 12. *)
Definition crowded_database : database :=
  {| keystroke_sessions :=
       map (fun i => {| ks_id := i; ks_user_id := 1%nat |}) (seq 1 12);
     keystroke_data :=
       flat_map (fun i => [keystroke_row i 0 100 None 1%Z;
                           keystroke_row i 130 250 (Some 30) 2%Z]) (seq 1 5)
       ++ map (fun i => keystroke_row i 0 100 None 1%Z) (seq 6 7);
     auth_attempts :=
       [{| aa_user_id := 1%nat; aa_success := true; aa_keystroke_match := false;
           aa_location_match := true; aa_match_score := None;
           aa_attempted_at := 5%Z |}] |}.

(** ** Example patterns

    The z-scores of two keystrokes of different times are plus and minus
    [50 / sqrt (10000 / 3)] when the times are 100 and 200. *)
Definition unit_z : R := 50 / sqrt (10000 / 3).

(** Dwell 100, 200 and flight 100, 200. *)
Definition rising_pattern : list (R * R) := [(- unit_z, - unit_z); (unit_z, unit_z)].

(** Dwell 100, 100 and flight 100, 100. *)
Definition flat_pattern : list (R * R) := [(0, 0); (0, 0)].

(** Dwell 200, 100 and flight 100, 200. *)
Definition crossed_pattern : list (R * R) := [(unit_z, - unit_z); (- unit_z, unit_z)].

(** Scenario E: three successful attempts of subject 1 in the last week,
    scored 0.9, 0.8 and 0.7, and an older one scored 0.1. *)
Definition scored_attempts_database : database :=
  {| keystroke_sessions := [];
     keystroke_data := [];
     auth_attempts :=
       [{| aa_user_id := 1%nat; aa_success := true; aa_keystroke_match := true;
           aa_location_match := true; aa_match_score := Some 0.1;
           aa_attempted_at := 0%Z |};
        {| aa_user_id := 1%nat; aa_success := true; aa_keystroke_match := true;
           aa_location_match := true; aa_match_score := Some 0.7;
           aa_attempted_at := 700000000000%Z |};
        {| aa_user_id := 1%nat; aa_success := true; aa_keystroke_match := true;
           aa_location_match := true; aa_match_score := Some 0.9;
           aa_attempted_at := 900000000000%Z |};
        {| aa_user_id := 1%nat; aa_success := true; aa_keystroke_match := true;
           aa_location_match := true; aa_match_score := Some 0.8;
           aa_attempted_at := 800000000000%Z |}] |}.

(** ** Keyboard events

    The key events of a typing, in the order they arrive; [time] is
    [Date.now() - startTime] at the event. *)
Inductive keyboard_event : Type :=
| keydown (e_key : string) (time : R)
| keyup (e_key : string) (time : R).

Definition event_time (e : keyboard_event) : R :=
  match e with
  | keydown _ t => t
  | keyup _ t => t
  end.

(** The key-down events among the events. *)
Definition presses (events : list keyboard_event) : list (string * R) :=
  flat_map (fun e => match e with
                     | keydown k t => [(k, t)]
                     | keyup _ _ => []
                     end) events.

(** ** The keyboard handlers of the login page (part_000, lines 141-158)

    The state is the list [keystrokes], which both handlers update
    from its previous value. *)

Module LoginPage.

(** [stroke.release_time === 0]. *)
Definition release_time_is_zero (stroke : KeystrokeData) : bool :=
  if Req_dec_T (release_time stroke) 0 then true else false.

Definition handleKeyDown (e_key : string) (pressTime : R) (prev : list KeystrokeData)
  : list KeystrokeData :=
  prev ++ [{| key := e_key; press_time := pressTime; release_time := 0 |}].

Definition handleKeyUp (e_key : string) (releaseTime : R) (prev : list KeystrokeData)
  : list KeystrokeData :=
  map (fun stroke =>
         if String.eqb (key stroke) e_key && release_time_is_zero stroke
         then {| key := key stroke;
                 press_time := press_time stroke;
                 release_time := releaseTime |}
         else stroke)
    prev.

(** The check of [handleSubmit] on the keystrokes (lines 180-183):
    [keystrokes.some((stroke) => stroke.release_time === 0)]. *)
Definition some_key_not_released (keystrokes : list KeystrokeData) : bool :=
  existsb release_time_is_zero keystrokes.

Definition handle (keystrokes : list KeystrokeData) (e : keyboard_event)
  : list KeystrokeData :=
  match e with
  | keydown k t => handleKeyDown k t keystrokes
  | keyup k t => handleKeyUp k t keystrokes
  end.

(** The state after the events, from the empty list the page starts with. *)
Definition keystrokes_after (events : list keyboard_event) : list KeystrokeData :=
  fold_left handle events [].

End LoginPage.

(** ** The component [KeystrokeInput] (part_001), used by the signup page

    Its state is [input], [keystrokes] and [error]; a JavaScript string
    is the string of its code units, [input.length] its length and
    [text[i]] the one-unit string at index [i].  The handlers run one
    event at a time, each on the state the previous one left. *)

Module KeystrokeInput.

Record state : Type := {
  input : string;
  keystrokes : list KeystrokeData;
  error : string
}.

(** The state of a new component, and after [resetTest] (lines 17-25). *)
Definition initial : state :=
  {| input := ""; keystrokes := []; error := "" |}.

(** [text[input.length]]; the index is inside the text wherever the
    handler reads it, the empty string stands for [undefined]. *)
Definition expectedChar (text input : string) : string :=
  match String.get (String.length input) text with
  | Some c => String c EmptyString
  | None => EmptyString
  end.

(** The double quote of the error message. *)
Definition quote : string := String (Ascii.ascii_of_nat 34) EmptyString.

(** [handleKeyDown] (lines 33-45). *)
Definition handleKeyDown (text e_key : string) (pressTime : R) (s : state) : state :=
  if (String.length text <=? String.length (input s))%nat then s
  else if negb (String.eqb e_key (expectedChar text (input s))) then
    {| input := input s;
       keystrokes := keystrokes s;
       error := "Expected " ++ quote ++ expectedChar text (input s) ++ quote
                ++ " but got " ++ quote ++ e_key ++ quote |}
  else
    {| input := input s;
       keystrokes :=
         keystrokes s ++ [{| key := e_key; press_time := pressTime; release_time := 0 |}];
       error := "" |}.

(** [prev.map((k, i) => i === prev.length - 1 ? { ...k, release_time:
    releaseTime } : k)]. *)
Definition release_last (releaseTime : R) (prev : list KeystrokeData)
  : list KeystrokeData :=
  map (fun ik =>
         if Nat.eqb (fst ik) (length prev - 1)
         then {| key := key (snd ik);
                 press_time := press_time (snd ik);
                 release_time := releaseTime |}
         else snd ik)
    (combine (seq 0 (length prev)) prev).

(** [handleKeyUp] (lines 47-57). *)
Definition handleKeyUp (text e_key : string) (releaseTime : R) (s : state) : state :=
  if (String.length text <? String.length (input s))%nat then s
  else
    {| input := input s ++ e_key;
       keystrokes := release_last releaseTime (keystrokes s);
       error := error s |}.

(** The effect (lines 27-31): [onComplete(keystrokes)] is called when
    the input is as long as the text; [None] when it is not called. *)
Definition onComplete (text : string) (s : state) : option (list KeystrokeData) :=
  if Nat.eqb (String.length (input s)) (String.length text)
  then Some (keystrokes s)
  else None.

Definition handle (text : string) (s : state) (e : keyboard_event) : state :=
  match e with
  | keydown k t => handleKeyDown text k t s
  | keyup k t => handleKeyUp text k t s
  end.

Definition run (text : string) (events : list keyboard_event) (s : state) : state :=
  fold_left (handle text) events s.

End KeystrokeInput.

(** A typing without a slip: each character pressed and released in
    turn, [(c, press, release)] for each. *)
Definition typed (strokes : list (Ascii.ascii * R * R)) : list keyboard_event :=
  flat_map (fun s =>
              [keydown (String (fst (fst s)) EmptyString) (snd (fst s));
               keyup (String (fst (fst s)) EmptyString) (snd s)])
    strokes.

Definition typed_text (strokes : list (Ascii.ascii * R * R)) : string :=
  string_of_list_ascii (map (fun s => fst (fst s)) strokes).

Definition typed_keystrokes (strokes : list (Ascii.ascii * R * R)) : list KeystrokeData :=
  map (fun s => {| key := String (fst (fst s)) EmptyString;
                   press_time := snd (fst s);
                   release_time := snd s |})
    strokes.

(** ** The z-score of a value within its own series *)

(** The z-score that the normalizer of square_silence gives a value of
    a series: taken with the deviation of that series alone, and 0 when
    that deviation is NULL or not positive. *)
Definition own_zscore (series : list R) (x : R) : R :=
  match Sql.stddev series with
  | Some s => if Rgt_dec s 0 then (x - series_mean series) / s else 0
  | None => 0
  end.

(** * Properties *)

(** ** The validator *)

Lemma validate_value_range (value : option R) : 0 <= validate_value value <= 5000.
Proof.
  destruct value as [v|]; simpl; [|lra].
  destruct (Rlt_dec v 0); [lra|].
  destruct (Rlt_dec 5000 v); lra.
Qed.

Lemma validate_value_entry (value : option R) :
  validated_entry value (validate_value value).
Proof.
  destruct value as [v|]; simpl; [|constructor].
  destruct (Rlt_dec v 0); [now constructor|].
  destruct (Rlt_dec 5000 v); [now constructor|].
  apply entry_unchanged; lra.
Qed.

(** C7.  The validator returns a sequence of the length of its input,
    every entry of which lies in [0, 5000]; an entry is 0 when the raw
    value was null, negative or above 5000, and the raw value itself
    otherwise. *)
Theorem validate_keystroke_array_spec (arr : list (option R)) :
  length (validate_keystroke_array arr) = length arr
  /\ Forall (fun v => 0 <= v <= 5000) (validate_keystroke_array arr)
  /\ Forall2 validated_entry arr (validate_keystroke_array arr).
Proof.
  unfold validate_keystroke_array.
  split; [apply length_map|].
  split.
  - apply Forall_forall; intros v Hv.
    apply in_map_iff in Hv as [x [<- _]].
    apply validate_value_range.
  - induction arr as [|x arr IH]; simpl; constructor; auto using validate_value_entry.
Qed.

(** ** The decision *)

Lemma score_patterns_recommendation t n c hs ms t' d k n' r :
  score_patterns t n c hs = json_result ms t' d k n' r -> r = recommend ms t'.
Proof.
  unfold score_patterns.
  destruct (select_match_details n c hs) as [e|md]; [discriminate|].
  now intros [= <- <- _ _ _ <-].
Qed.

Lemma verify_current_session_recommendation db user_id session_id t d f ms t' md k n r :
  verify_current_session db user_id session_id t d f = json_result ms t' md k n r ->
  r = recommend ms t'.
Proof.
  unfold verify_current_session, compare_patterns.
  destruct (Sql.array_length d) as [[|m]|]; try discriminate.
  destruct (historical_patterns db user_id session_id (S m)); [discriminate|].
  apply score_patterns_recommendation.
Qed.

Lemma verify_recommendation db auth_uid now user_id session_id ms t d k n r :
  verify_keystroke_pattern db auth_uid now user_id session_id
  = returned (json_result ms t d k n r) ->
  r = recommend ms t.
Proof.
  unfold verify_keystroke_pattern.
  destruct auth_uid as [u|]; [|discriminate].
  destruct (negb (Nat.eqb u user_id)); [discriminate|].
  destruct (current_keystrokes db session_id) as [e|[cd cf]]; [discriminate|].
  intros [= H]. now apply verify_current_session_recommendation in H.
Qed.

(** C2.  The recommendation is accept exactly when the score reaches the
    threshold, challenge exactly when it lies between 0.8 times the
    threshold and the threshold, and reject in every other case; it is
    the recommendation of every full result of the verification. *)
Theorem recommend_spec (match_score threshold : R) :
  (recommend match_score threshold = accept <-> match_score >= threshold)
  /\ (recommend match_score threshold = challenge
      <-> threshold * 0.8 <= match_score < threshold)
  /\ (recommend match_score threshold = reject
      <-> ~ match_score >= threshold
          /\ ~ threshold * 0.8 <= match_score < threshold)
  /\ (forall db auth_uid now user_id session_id d k n r,
        verify_keystroke_pattern db auth_uid now user_id session_id
        = returned (json_result match_score threshold d k n r) ->
        r = recommend match_score threshold).
Proof.
  split; [|split; [|split]];
    [| | |intros; eapply verify_recommendation; eassumption];
    unfold recommend;
    (destruct (Rge_dec match_score threshold) as [Ha|Ha];
     [|destruct (Rge_dec match_score (threshold * 0.8)) as [Hc|Hc]]);
    repeat split; intros; try discriminate; try lra; auto.
Qed.

(** ** Sorting *)

Section OrderBy.

Context {A : Type} (leb : A -> A -> bool).

Lemma insert_by_perm (a : A) (l : list A) : Permutation (a :: l) (Sql.insert_by leb a l).
Proof.
  induction l as [|b l IH]; simpl; [reflexivity|].
  destruct (leb a b); [reflexivity|].
  rewrite perm_swap. now constructor.
Qed.

Lemma order_by_perm (l : list A) : Permutation l (Sql.order_by leb l).
Proof.
  induction l as [|a l IH]; simpl; [constructor|].
  rewrite <- insert_by_perm. now constructor.
Qed.

Lemma order_by_length (l : list A) : length (Sql.order_by leb l) = length l.
Proof. symmetry. apply Permutation_length, order_by_perm. Qed.

Lemma order_by_In (x : A) (l : list A) : In x (Sql.order_by leb l) <-> In x l.
Proof.
  split; apply Permutation_in; [symmetry|]; apply order_by_perm.
Qed.

Lemma order_by_nil (l : list A) : Sql.order_by leb l = [] <-> l = [].
Proof.
  split; intros H.
  - apply length_zero_iff_nil. rewrite <- order_by_length, H. reflexivity.
  - now subst.
Qed.

Hypothesis leb_total : forall a b, leb a b = true \/ leb b a = true.
Hypothesis leb_trans : forall a b c, leb a b = true -> leb b c = true -> leb a c = true.

Lemma insert_by_sorted (a : A) (l : list A) :
  Sorted (fun x y => leb x y = true) l ->
  Sorted (fun x y => leb x y = true) (Sql.insert_by leb a l).
Proof.
  induction l as [|b l IH]; simpl; intros Hs.
  - repeat constructor.
  - destruct (leb a b) eqn:Hab.
    + constructor; [assumption|now constructor].
    + inversion Hs as [|? ? Hl Hhd]; subst.
      constructor; [now apply IH|].
      destruct l as [|c l]; simpl.
      * constructor. destruct (leb_total a b); congruence.
      * destruct (leb a c); constructor.
        -- destruct (leb_total a b); congruence.
        -- now inversion Hhd.
Qed.

Lemma order_by_sorted (l : list A) :
  StronglySorted (fun x y => leb x y = true) (Sql.order_by leb l).
Proof.
  apply Sorted_StronglySorted; [exact leb_trans|].
  induction l as [|a l IH]; simpl; [constructor|].
  now apply insert_by_sorted.
Qed.

End OrderBy.

Lemma firstn_In {A : Type} (k : nat) (x : A) (l : list A) : In x (firstn k l) -> In x l.
Proof.
  intros H. rewrite <- (firstn_skipn k l). apply in_or_app. now left.
Qed.

(** The first rows of a sorted list come before all the others. *)
Lemma sorted_firstn_skipn {A : Type} (R : A -> A -> Prop) (k : nat) (l : list A) :
  StronglySorted R l ->
  Forall (fun x => Forall (R x) (skipn k l)) (firstn k l).
Proof.
  intros Hs; revert k.
  induction Hs as [|a l Hs IH Ha]; intros [|k]; simpl; constructor.
  - destruct k; simpl; [assumption|].
    apply Forall_forall; intros x Hx.
    rewrite Forall_forall in Ha. apply Ha.
    rewrite <- (firstn_skipn (S k) l). apply in_or_app. now right.
  - apply IH.
Qed.

(** ** The adaptive threshold *)

Lemma attempted_at_desc_total (a b : auth_attempts_row) :
  attempted_at_desc a b = true \/ attempted_at_desc b a = true.
Proof. unfold attempted_at_desc. rewrite !Z.leb_le. lia. Qed.

Lemma attempted_at_desc_trans (a b c : auth_attempts_row) :
  attempted_at_desc a b = true -> attempted_at_desc b c = true ->
  attempted_at_desc a c = true.
Proof. unfold attempted_at_desc. rewrite !Z.leb_le. lia. Qed.

Lemma recent_attempts_rows_most_recent
  (db : database) (now : timestamptz) (user_id : uuid) (cap : nat) :
  most_recent_of cap (filter (qualifying now user_id) (auth_attempts db))
    (recent_attempts_rows db now user_id cap).
Proof.
  unfold recent_attempts_rows.
  change (fun aa => _) with (qualifying now user_id).
  set (candidates := filter (qualifying now user_id) (auth_attempts db)).
  set (sorted := Sql.order_by attempted_at_desc candidates).
  exists (skipn cap sorted).
  split; [|split].
  - rewrite firstn_skipn. apply order_by_perm.
  - rewrite length_firstn. unfold sorted. now rewrite order_by_length.
  - pose proof (order_by_sorted attempted_at_desc attempted_at_desc_total
                  attempted_at_desc_trans candidates) as Hs.
    apply (sorted_firstn_skipn _ cap) in Hs.
    eapply Forall_impl; [|exact Hs].
    intros r Hr. eapply Forall_impl; [|exact Hr].
    intros x Hx. unfold attempted_at_desc in Hx. now apply Z.leb_le.
Qed.

Lemma threshold_of_scores_eq (scores : list R) :
  Sql.coalesce (option_map (fun a => a * 0.8) (Sql.avg scores)) 0.7
  = threshold_of_scores scores.
Proof. destruct scores; simpl; [reflexivity|lra]. Qed.

Lemma verify_current_session_threshold db user_id session_id a d f t :
  json_threshold (verify_current_session db user_id session_id a d f) = Some t -> t = a.
Proof.
  unfold verify_current_session, compare_patterns, score_patterns.
  destruct (Sql.array_length d) as [[|m]|]; try discriminate.
  destruct (historical_patterns db user_id session_id (S m)); [now intros [= <-]|].
  destruct (select_match_details _ _ _); [discriminate|now intros [= <-]].
Qed.

Lemma verify_threshold db auth_uid now user_id session_id j t :
  verify_keystroke_pattern db auth_uid now user_id session_id = returned j ->
  json_threshold j = Some t ->
  t = calculate_adaptive_threshold db now user_id 10.
Proof.
  unfold verify_keystroke_pattern.
  destruct auth_uid as [u|]; [|discriminate].
  destruct (negb (Nat.eqb u user_id)); [discriminate|].
  destruct (current_keystrokes db session_id) as [e|[cd cf]]; [discriminate|].
  intros [= <-]. apply verify_current_session_threshold.
Qed.

(** C5.  The rows the estimator reads are the most recent successful
    attempts of the subject inside the seven-day window, at most [cap]
    of them; the threshold is 0.8 times the mean of their match scores,
    and 0.7 when there is no score; the scores 0.9, 0.8, 0.7 give 0.64.
    The verification calls the estimator with the cap 10. *)
Theorem calculate_adaptive_threshold_spec
  (db : database) (now : timestamptz) (user_id : uuid) (cap : nat) :
  most_recent_of cap (filter (qualifying now user_id) (auth_attempts db))
    (recent_attempts_rows db now user_id cap)
  /\ calculate_adaptive_threshold db now user_id cap
     = threshold_of_scores
         (Sql.non_null (map aa_match_score (recent_attempts_rows db now user_id cap)))
  /\ threshold_of_scores [] = 0.7
  /\ threshold_of_scores [0.9; 0.8; 0.7] = 0.8 * 0.8
  /\ 0.8 * 0.8 = 0.64
  /\ calculate_adaptive_threshold scored_attempts_database 1000000000000%Z 1%nat 10 = 0.64
  /\ (forall auth_uid session_id j t,
        verify_keystroke_pattern db auth_uid now user_id session_id = returned j ->
        json_threshold j = Some t ->
        t = calculate_adaptive_threshold db now user_id 10).
Proof.
  split; [apply recent_attempts_rows_most_recent|].
  split; [apply threshold_of_scores_eq|].
  split; [reflexivity|].
  split; [simpl; lra|].
  split; [lra|].
  split; [|intros; eapply verify_threshold; eassumption].
  unfold calculate_adaptive_threshold.
  change (Sql.non_null (recent_scores scored_attempts_database 1000000000000%Z 1%nat 10))
    with [0.9; 0.8; 0.7].
  simpl. lra.
Qed.

(** ** The login flow and the threshold *)

Lemma insert_keystroke_data_attempts (db : database) (rows : list keystroke_data_row) :
  auth_attempts (insert_keystroke_data db rows) = auth_attempts db.
Proof.
  unfold insert_keystroke_data.
  revert db; induction rows as [|r rows IH]; intros db; simpl; [reflexivity|].
  now rewrite IH.
Qed.

Lemma login_database_attempts db user session now keystrokes :
  auth_attempts (login_database db user session now keystrokes) = auth_attempts db.
Proof. unfold login_database. now rewrite insert_keystroke_data_attempts. Qed.

Lemma signup_attempts db user session now keystrokes :
  auth_attempts (signup db user session now keystrokes) = auth_attempts db.
Proof. unfold signup. now rewrite insert_keystroke_data_attempts. Qed.

Lemma after_verification_attempts {J : Type} (match_score : J -> R)
  db user attempted_at (answer : call_result J) :
  Forall written_by_login (auth_attempts db) ->
  Forall written_by_login
    (auth_attempts (fst (after_verification match_score db user attempted_at answer))).
Proof.
  intros H. destruct answer as [m|j]; simpl; [assumption|].
  apply Forall_app; split; [assumption|].
  repeat constructor.
Qed.

Lemma reachable_attempts (db : database) :
  reachable db -> Forall written_by_login (auth_attempts db).
Proof.
  induction 1 as [|db user session now ks _ IH
                  |db user session now at' ks answer _ IH
                  |db user session now at' ks answer _ IH].
  - constructor.
  - now rewrite signup_attempts.
  - apply after_verification_attempts. now rewrite login_database_attempts.
  - apply after_verification_attempts. now rewrite login_database_attempts.
Qed.

Lemma non_null_all_null {A B : Type} (f : A -> option B) (l : list A) :
  Forall (fun x => f x = None) l -> Sql.non_null (map f l) = [].
Proof.
  induction 1 as [|x l Hx _ IH]; simpl; [reflexivity|].
  now rewrite Hx.
Qed.

Lemma threshold_without_scores (db : database) :
  Forall written_by_login (auth_attempts db) ->
  forall now user_id cap, calculate_adaptive_threshold db now user_id cap = 0.7.
Proof.
  intros H now user_id cap.
  unfold calculate_adaptive_threshold, recent_scores.
  rewrite non_null_all_null; [reflexivity|].
  apply Forall_forall; intros aa Hin.
  unfold recent_attempts_rows in Hin.
  apply firstn_In, order_by_In, filter_In in Hin. destruct Hin as [Hin _].
  rewrite Forall_forall in H. now apply H.
Qed.

(** C10.  In every database the pages can produce, each attempt row is
    successful and carries no match score; hence the adaptive threshold
    is the default 0.7 for every subject at every time, in particular on
    the database each login runs its verification on. *)
Theorem login_flow_threshold_is_default (db : database) :
  reachable db ->
  Forall written_by_login (auth_attempts db)
  /\ (forall now user_id cap, calculate_adaptive_threshold db now user_id cap = 0.7)
  /\ (forall user session now keystrokes,
        calculate_adaptive_threshold
          (login_database db user session now keystrokes) now user 10 = 0.7).
Proof.
  intros Hr. pose proof (reachable_attempts db Hr) as Hw.
  split; [assumption|]. split.
  - now apply threshold_without_scores.
  - intros. apply threshold_without_scores.
    now rewrite login_database_attempts.
Qed.

Lemma login_flow_threshold_is_default_witness :
  reachable (fst (debouncedLogin empty_database 1%nat 1%nat 0%Z 0%Z []))
  /\ calculate_adaptive_threshold
       (fst (debouncedLogin empty_database 1%nat 1%nat 0%Z 0%Z [])) 0%Z 1%nat 10
     = 0.7.
Proof.
  assert (H : reachable (fst (debouncedLogin empty_database 1%nat 1%nat 0%Z 0%Z [])))
    by apply reachable_login, reachable_empty.
  split; [exact H|].
  apply (login_flow_threshold_is_default _ H).
Defined.

(** ** The calls of the verification *)

(** Comparisons of concrete reals inside a term. *)
Ltac decide_reals :=
  repeat match goal with
    | |- context [Rge_dec ?a ?b] => destruct (Rge_dec a b); try lra
    | |- context [Rle_dec ?a ?b] => destruct (Rle_dec a b); try lra
    | |- context [Rlt_dec ?a ?b] => destruct (Rlt_dec a b); try lra
    end.

(** The caller passes the check of lines 36-41 and the call stops at
    the statement that reads the current session. *)
Lemma verify_raises db now user_id session_id :
  verify_keystroke_pattern db (Some user_id) now user_id session_id
  = raised (ambiguous_column "session_id").
Proof. unfold verify_keystroke_pattern. now rewrite Nat.eqb_refl. Qed.

Lemma flat_meadow_verify_raises db user_id session_id :
  FlatMeadow.verify_keystroke_pattern db (Some user_id) user_id session_id
  = raised (ambiguous_column "session_id").
Proof. unfold FlatMeadow.verify_keystroke_pattern. now rewrite Nat.eqb_refl. Qed.

(** The login page takes the error of the RPC to its [catch]. *)
Lemma debouncedLogin_fails db user session now attempted_at keystrokes :
  debouncedLogin db user session now attempted_at keystrokes
  = (login_database db user session now keystrokes,
     login_error "Failed to verify keystroke pattern").
Proof. unfold debouncedLogin. now rewrite verify_raises. Qed.

Lemma debouncedLogin_flat_meadow_fails db user session now attempted_at keystrokes :
  debouncedLogin_flat_meadow db user session now attempted_at keystrokes
  = (login_database db user session now keystrokes,
     login_error "Failed to verify keystroke pattern").
Proof. unfold debouncedLogin_flat_meadow. now rewrite flat_meadow_verify_raises. Qed.


(** C3.  The call on a session without samples fails, but not with the
    error of the claim.  Both versions of the function raise the
    ambiguity error of the statement that reads the session, before
    they test for an empty session, and the login page reports
    'Failed to verify keystroke pattern', records no attempt and does
    not navigate.  The test itself (part_005, lines 67-73; flat_meadow,
    lines 120-126) raises nothing: given the empty arrays it returns an
    object with [match_score] 0 and the message about the missing
    data. *)
Theorem empty_session_call :
  session_samples empty_session_database 1%nat = []
  /\ verify_keystroke_pattern empty_session_database (Some 1%nat) 0%Z 1%nat 1%nat
     = raised (ambiguous_column "session_id")
  /\ FlatMeadow.verify_keystroke_pattern empty_session_database (Some 1%nat) 1%nat 1%nat
     = raised (ambiguous_column "session_id")
  /\ debouncedLogin empty_database 1%nat 1%nat 0%Z 0%Z []
     = (empty_session_database, login_error "Failed to verify keystroke pattern")
  /\ debouncedLogin_flat_meadow empty_database 1%nat 1%nat 0%Z 0%Z []
     = (empty_session_database, login_error "Failed to verify keystroke pattern")
  /\ (forall adaptive_threshold current_flight_times,
        verify_current_session empty_session_database 1%nat 1%nat adaptive_threshold
          [] current_flight_times
        = json_error 0 "No valid keystroke data found for current session")
  /\ (forall current_dwell_times current_flight_times,
        FlatMeadow.verify_current_session empty_session_database 1%nat 1%nat
          current_dwell_times current_flight_times 0
        = FlatMeadow.json_error 0 "No keystroke data found for current session").
Proof.
  split; [reflexivity|].
  split; [apply verify_raises|].
  split; [apply flat_meadow_verify_raises|].
  split; [apply debouncedLogin_fails|].
  split; [apply debouncedLogin_flat_meadow_fails|].
  split; reflexivity.
Qed.

(** C9.  The first check of a subject is a failure, where the claim
    has a neutral score: the function raises the ambiguity error of the
    statement that reads the session, and the login that makes the
    call ends with the message 'Failed to verify keystroke pattern'.
    The branch for a call without history (part_005, lines 117-126) is
    not reached; given the arrays of the session it returns an object
    with [match_score] 0.5, the threshold and the reason, and no
    recommendation.  The decision rule gives reject for 0.5 against
    0.7. *)
Theorem first_check_call :
  auth_attempts first_check_database = []
  /\ verify_keystroke_pattern first_check_database (Some 1%nat) 0%Z 1%nat 1%nat
     = raised (ambiguous_column "session_id")
  /\ debouncedLogin empty_database 1%nat 1%nat 0%Z 0%Z
       [{| key := "a"; press_time := 0; release_time := 100 |}]
     = (first_check_database, login_error "Failed to verify keystroke pattern")
  /\ (forall adaptive_threshold,
        verify_current_session first_check_database 1%nat 1%nat adaptive_threshold
          [sanitize_dwell (Some (100 - 0))] [sanitize_flight None]
        = json_no_history 0.5 adaptive_threshold
            "No historical patterns available for comparison")
  /\ json_recommendation
       (json_no_history 0.5 0.7 "No historical patterns available for comparison")
     = None
  /\ recommend 0.5 0.7 = reject.
Proof.
  split; [reflexivity|].
  split; [apply verify_raises|].
  split; [apply debouncedLogin_fails|].
  split; [reflexivity|].
  split; [reflexivity|].
  unfold recommend. decide_reals. reflexivity.
Qed.

(** ** Normalizing arrays of equal length *)

Lemma unnest2_same_length (d f : list R) :
  length d = length f ->
  unnest2 d f = map (fun t => (Some (fst t), Some (snd t))) (combine d f).
Proof.
  revert f; induction d as [|x d IH]; intros [|y f] H; simpl in *; try discriminate.
  - reflexivity.
  - f_equal. apply IH. congruence.
Qed.

Lemma lengths_differ_same_length (d f : list R) :
  length d = length f -> lengths_differ d f = false.
Proof.
  intros H. unfold lengths_differ, Sql.array_length.
  destruct d, f; try reflexivity; try discriminate.
  rewrite H, Nat.eqb_refl. reflexivity.
Qed.

Lemma validate_keystroke_array_length (arr : list (option R)) :
  length (validate_keystroke_array arr) = length arr.
Proof. apply length_map. Qed.

(** The normalizer returns a pattern, not NULL, on arrays of one length. *)
Lemma normalize_same_length (dwell_times flight_times : list (option R)) :
  length dwell_times = length flight_times ->
  exists p,
    normalize_keystroke_pattern dwell_times flight_times = Some p
    /\ length p = length dwell_times.
Proof.
  intros H. unfold normalize_keystroke_pattern.
  rewrite lengths_differ_same_length
    by now rewrite !validate_keystroke_array_length.
  eexists; split; [reflexivity|].
  rewrite length_map, unnest2_same_length
    by now rewrite !validate_keystroke_array_length.
  rewrite length_map, length_combine, !validate_keystroke_array_length.
  rewrite <- H. apply Nat.min_id.
Qed.

Lemma statistics_rows_not_nil (d f : list R) :
  d <> [] -> f <> [] -> statistics_rows d f <> [].
Proof.
  intros Hd Hf H. apply (f_equal (@length _)) in H.
  unfold statistics_rows in H. rewrite length_prod in H. simpl in H.
  destruct d, f; try contradiction. simpl in H. discriminate.
Qed.

(** ** The verification against one identical historical session *)

(** The two arrays of a historical session have one length. *)
Lemma historical_keystrokes_arrays db user_id session_id pattern_length hk :
  In hk (historical_keystrokes db user_id session_id pattern_length) ->
  length (fst (snd hk)) = pattern_length /\ length (snd (snd hk)) = pattern_length.
Proof.
  unfold historical_keystrokes. intros H.
  apply in_flat_map in H as [hs [_ H]].
  destruct (Sql.order_by created_at_asc _) as [|r rows] eqn:Er; [contradiction|].
  destruct (Nat.eqb_spec (length (r :: rows)) pattern_length) as [Hl|_]; [|contradiction].
  destruct H as [<-|[]]. cbn [fst snd]. now rewrite !length_map.
Qed.

Lemma flat_map_singletons {A B : Type} (f : A -> list B) (l : list A) :
  Forall (fun x => length (f x) = 1%nat) l -> length (flat_map f l) = length l.
Proof.
  induction 1 as [|x l Hx _ IH]; [reflexivity|].
  simpl. rewrite length_app, Hx, IH. reflexivity.
Qed.

(** Every selected session of the right length gives one pattern. *)
Lemma historical_patterns_length db user_id session_id pattern_length :
  length (historical_patterns db user_id session_id pattern_length)
  = length (historical_keystrokes db user_id session_id pattern_length).
Proof.
  unfold historical_patterns. apply flat_map_singletons.
  apply Forall_forall. intros hk Hhk.
  apply historical_keystrokes_arrays in Hhk as [Hd Hf].
  destruct (normalize_same_length (map Some (fst (snd hk))) (map Some (snd (snd hk))))
    as [p [-> _]]; [|reflexivity].
  rewrite !length_map. congruence.
Qed.

(** With a history, the scoring statement raises and the handler
    answers. *)
Lemma compare_patterns_history t n c hs :
  hs <> [] ->
  compare_patterns t n c hs
  = json_error 0
      "Error calculating pattern match: function unnest(double precision) does not exist".
Proof. destruct hs as [|h hs]; [contradiction|reflexivity]. Qed.

(** C1.  Session 2 of the example repeats the keystrokes of session 1,
    the one historical session selected for it.  The call does not
    score it: it raises the ambiguity error of the statement that reads
    the current session.  Given the arrays of the session, the rest of
    the function (lines 67-179) does not score it either: the scoring
    statement raises, and the handler of lines 154-159 returns an
    object with [match_score] 0 and an error, without details or
    recommendation. *)
Theorem identical_history_call :
  historical_keystrokes repeated_typing_database 1%nat 2%nat 2
  = [(1%nat, (repeated_dwell_times, repeated_flight_times))]
  /\ map (fun kd => sanitize_dwell (kd_dwell_time kd))
       (session_samples repeated_typing_database 2%nat)
     = repeated_dwell_times
  /\ map (fun kd => sanitize_flight (kd_flight_time kd))
       (session_samples repeated_typing_database 2%nat)
     = repeated_flight_times
  /\ verify_keystroke_pattern repeated_typing_database (Some 1%nat) 20%Z 1%nat 2%nat
     = raised (ambiguous_column "session_id")
  /\ (forall adaptive_threshold,
        verify_current_session repeated_typing_database 1%nat 2%nat adaptive_threshold
          repeated_dwell_times repeated_flight_times
        = json_error 0
            "Error calculating pattern match: function unnest(double precision) does not exist").
Proof.
  split; [reflexivity|]. split; [reflexivity|]. split; [reflexivity|].
  split; [apply verify_raises|].
  intros adaptive_threshold. unfold verify_current_session.
  change (Sql.array_length repeated_dwell_times) with (Some 2%nat). cbv iota beta zeta.
  apply compare_patterns_history. intros Hnil.
  apply (f_equal (@length pattern)) in Hnil.
  rewrite historical_patterns_length in Hnil. discriminate Hnil.
Qed.

(** ** The statistics of the normalizer *)

Lemma sqrt_lower (a x : R) : 0 <= a -> a * a < x -> a < sqrt x.
Proof.
  intros Ha H. rewrite <- (sqrt_square a Ha) at 1.
  apply sqrt_lt_1_alt. split; [nra|assumption].
Qed.

Lemma sqrt_upper (b x : R) : 0 <= b -> 0 <= x -> x < b * b -> sqrt x < b.
Proof.
  intros Hb Hx H. rewrite <- (sqrt_square b Hb).
  apply sqrt_lt_1_alt. split; assumption.
Qed.

Lemma sum_app (l1 l2 : list R) : Sql.sum (l1 ++ l2) = Sql.sum l1 + Sql.sum l2.
Proof. induction l1 as [|x l1 IH]; simpl; [|rewrite IH]; lra. Qed.

Lemma sum_constant (c : R) (l : list R) :
  Forall (eq c) l -> Sql.sum l = INR (length l) * c.
Proof.
  induction 1 as [|x l <- _ IH].
  - simpl. lra.
  - change (Sql.sum (c :: l)) with (c + Sql.sum l).
    rewrite IH. change (length (c :: l)) with (S (length l)).
    rewrite S_INR. lra.
Qed.

(** Over the cross join, the dwell column repeats every dwell time once
    per flight time. *)
Lemma sum_dwell_column (d f : list R) :
  Sql.sum (map fst (statistics_rows d f)) = INR (length f) * Sql.sum d.
Proof.
  unfold statistics_rows.
  induction d as [|x d IH]; simpl; [lra|].
  rewrite map_app, sum_app, IH, map_map. simpl.
  rewrite (sum_constant x); [rewrite length_map; lra|].
  apply Forall_forall. intros y Hy. apply in_map_iff in Hy as [? [<- _]].
  reflexivity.
Qed.

(** The mean the normalizer uses is the mean of the dwell series. *)
Lemma dwell_mean_is_series_mean (d f : list R) :
  d <> [] -> f <> [] -> dwell_mean d f = Some (series_mean d).
Proof.
  intros Hd Hf. unfold dwell_mean, Sql.avg.
  destruct (map fst (statistics_rows d f)) eqn:E.
  - apply map_eq_nil in E. now apply statistics_rows_not_nil in E.
  - rewrite <- E, sum_dwell_column. f_equal.
    rewrite length_map. unfold statistics_rows. rewrite length_prod, mult_INR.
    unfold series_mean.
    assert (INR (length d) <> 0) by (apply not_0_INR; now destruct d).
    assert (INR (length f) <> 0) by (apply not_0_INR; now destruct f).
    field. split; assumption.
Qed.

Lemma dwell_std_positive (d f : list R) : 0 < dwell_std d f.
Proof.
  unfold dwell_std, Sql.greatest, min_std.
  destruct (Sql.stddev _) as [s|]; [|lra].
  eapply Rlt_le_trans; [|apply Rmax_r]. lra.
Qed.

(** A constant dwell series is normalized to zeros. *)
Lemma normalize_constant_dwell (dwell_times flight_times : list (option R)) (c : R) p :
  length dwell_times = length flight_times ->
  Forall (eq c) (validate_keystroke_array dwell_times) ->
  normalize_keystroke_pattern dwell_times flight_times = Some p ->
  Forall (fun r => fst r = Some 0) p.
Proof.
  intros Hl Hc. unfold normalize_keystroke_pattern.
  rewrite lengths_differ_same_length
    by now rewrite !validate_keystroke_array_length.
  intros [= <-].
  rewrite unnest2_same_length by now rewrite !validate_keystroke_array_length.
  remember (validate_keystroke_array dwell_times) as d eqn:Hd.
  remember (validate_keystroke_array flight_times) as f eqn:Hf.
  assert (Hlen : length d = length f)
    by (subst d f; now rewrite !validate_keystroke_array_length).
  clear Hd Hf Hl.
  destruct d as [|x d]; [constructor|].
  destruct f as [|y f]; [discriminate|].
  rewrite dwell_mean_is_series_mean by discriminate.
  assert (Hm : series_mean (x :: d) = c).
  { unfold series_mean. rewrite (sum_constant c) by assumption.
    field. apply not_0_INR. discriminate. }
  rewrite map_map. apply Forall_forall. intros r Hr.
  apply in_map_iff in Hr as [[td tf] [<- Ht]]. simpl. f_equal.
  apply in_combine_l in Ht. rewrite Forall_forall in Hc.
  rewrite <- (Hc _ Ht), Hm. unfold Rdiv. ring.
Qed.

Lemma validate_in_range (l : list R) :
  Forall (fun v => 0 <= v <= 5000) l -> validate_keystroke_array (map Some l) = l.
Proof.
  induction 1 as [|v l Hv _ IH]; [reflexivity|].
  unfold validate_keystroke_array in *. simpl. rewrite IH. f_equal.
  decide_reals.
Qed.

(** C6 fails on the code at the dwell times 100, 200 with the flight
    times 0, 50: the deviation the normalizer divides by is taken over
    the cross join of the two arrays, so it is the square root of
    10000/3 (about 57.7), neither the sample deviation of the dwell
    series (about 70.7, which is what the normalizer of square_silence
    computes) nor its population deviation (50); the first dwell z-score
    is about -0.866 where the series' own deviation gives about -0.707
    or -1. *)
Theorem normalize_deviation_over_cross_join :
  dwell_mean [100; 200] [0; 50] = Some (series_mean [100; 200])
  /\ dwell_std [100; 200] [0; 50] = sqrt (10000 / 3)
  /\ SquareSilence.std_of [Some 100; Some 200] = Some (series_sample_std [100; 200])
  /\ series_sample_std [100; 200] = sqrt 5000
  /\ series_population_std [100; 200] = 50
  /\ 57.7 < sqrt (10000 / 3) < 57.8
  /\ 70.7 < sqrt 5000
  /\ (exists flight_z rest,
        normalize_keystroke_pattern [Some 100; Some 200] [Some 0; Some 50]
        = Some ((Some (-50 / sqrt (10000 / 3)), flight_z) :: rest))
  /\ series_zscore [100; 200] (series_sample_std [100; 200]) 100 = -50 / sqrt 5000
  /\ series_zscore [100; 200] (series_population_std [100; 200]) 100 = -1
  /\ -50 / sqrt (10000 / 3) < -50 / sqrt 5000
  /\ -1 < -50 / sqrt (10000 / 3).
Proof.
  assert (Hcode : dwell_std [100; 200] [0; 50] = sqrt (10000 / 3)).
  { unfold dwell_std, statistics_rows. simpl.
    match goal with |- Rmax (sqrt ?x) _ = _ => replace x with (10000 / 3) by lra end.
    apply Rmax_left. unfold min_std.
    pose proof (sqrt_lower 1 (10000 / 3)). lra. }
  assert (Hsample : series_sample_std [100; 200] = sqrt 5000).
  { unfold series_sample_std, series_mean. simpl. f_equal. lra. }
  assert (Hpop : series_population_std [100; 200] = 50).
  { unfold series_population_std, series_mean. simpl.
    match goal with |- sqrt ?x = _ => replace x with (50 * 50) by lra end.
    apply sqrt_square. lra. }
  assert (Hmean : series_mean [100; 200] = 150).
  { unfold series_mean. simpl. lra. }
  assert (Hlo : 57.7 < sqrt (10000 / 3)) by (apply sqrt_lower; lra).
  assert (Hhi : sqrt (10000 / 3) < 57.8) by (apply sqrt_upper; lra).
  assert (Hs : 70.7 < sqrt 5000) by (apply sqrt_lower; lra).
  split; [apply dwell_mean_is_series_mean; discriminate|].
  split; [exact Hcode|]. split; [reflexivity|].
  split; [exact Hsample|]. split; [exact Hpop|].
  split; [split; assumption|]. split; [exact Hs|].
  split.
  { unfold normalize_keystroke_pattern.
    change [Some 100; Some 200] with (map Some [100; 200]).
    change [Some 0; Some 50] with (map Some [0; 50]).
    rewrite (validate_in_range [100; 200]), (validate_in_range [0; 50])
      by (repeat constructor; lra).
    change (lengths_differ [100; 200] [0; 50]) with false. cbv iota.
    rewrite Hcode, dwell_mean_is_series_mean, Hmean by discriminate.
    simpl. do 2 eexists. f_equal. f_equal. f_equal. f_equal. lra. }
  split.
  { unfold series_zscore. rewrite Hsample, Hmean.
    rewrite Rmax_left by (unfold min_std; lra). f_equal. lra. }
  split.
  { unfold series_zscore. rewrite Hpop, Hmean.
    rewrite Rmax_left by (unfold min_std; lra). lra. }
  split.
  - unfold Rdiv.
    assert (/ sqrt 5000 < / sqrt (10000 / 3))
      by (apply Rinv_lt_contravar; nra).
    lra.
  - apply Rmult_lt_reg_r with (sqrt (10000 / 3)); [lra|].
    unfold Rdiv. rewrite Rmult_assoc, Rinv_l by lra. lra.
Qed.

(** ** The selection of historical sessions *)

Lemma by_id_then_recent_total a b :
  by_id_then_recent a b = true \/ by_id_then_recent b a = true.
Proof.
  unfold by_id_then_recent.
  destruct (Nat.lt_trichotomy (ks_id (fst a)) (ks_id (fst b))) as [H|[H|H]].
  - left. apply Nat.ltb_lt in H. now rewrite H.
  - rewrite H, Nat.eqb_refl, Nat.ltb_irrefl. simpl.
    rewrite !Z.leb_le. lia.
  - right. apply Nat.ltb_lt in H. now rewrite H.
Qed.

Lemma by_id_then_recent_spec a b :
  by_id_then_recent a b = true <->
  (ks_id (fst a) < ks_id (fst b))%nat
  \/ (ks_id (fst a) = ks_id (fst b)
      /\ (aa_attempted_at (snd b) <= aa_attempted_at (snd a))%Z).
Proof.
  unfold by_id_then_recent.
  rewrite orb_true_iff, andb_true_iff, Nat.ltb_lt, Nat.eqb_eq, Z.leb_le. tauto.
Qed.

Lemma by_id_then_recent_trans a b c :
  by_id_then_recent a b = true -> by_id_then_recent b c = true ->
  by_id_then_recent a c = true.
Proof. rewrite !by_id_then_recent_spec. lia. Qed.

Lemma distinct_on_head l :
  hd_error (Sql.distinct_on same_session l) = hd_error l.
Proof. destruct l; reflexivity. Qed.

Lemma distinct_on_In x l : In x (Sql.distinct_on same_session l) -> In x l.
Proof.
  revert x; induction l as [|a l IH]; intros x; simpl; [tauto|].
  intros [->|H]; [now left|right].
  destruct (Sql.distinct_on same_session l) as [|b r]; [contradiction|].
  apply IH. destruct (same_session a b); [now right|assumption].
Qed.

(** Every session of the ordered rows keeps one row. *)
Lemma distinct_on_complete l :
  StronglySorted id_le l ->
  forall x, In x l ->
  exists y, In y (Sql.distinct_on same_session l) /\ ks_id (fst y) = ks_id (fst x).
Proof.
  induction 1 as [|a l Hs IH Ha]; intros x Hx; [contradiction|].
  destruct Hx as [->|Hx]; [exists x; split; [now left|reflexivity]|].
  destruct (IH x Hx) as [y [Hy Hid]].
  simpl. pose proof (distinct_on_head l) as Hhd.
  destruct (Sql.distinct_on same_session l) as [|b r]; [contradiction|].
  destruct (same_session a b) eqn:Hab.
  - destruct Hy as [->|Hy].
    + exists a. split; [now left|].
      unfold same_session in Hab. apply Nat.eqb_eq in Hab. congruence.
    + exists y. split; [now right|assumption].
  - exists y. split; [now right|assumption].
Qed.

(** After [DISTINCT ON] the session ids increase strictly. *)
Lemma distinct_on_sorted l :
  StronglySorted id_le l -> StronglySorted id_lt (Sql.distinct_on same_session l).
Proof.
  induction 1 as [|a l Hs IH Ha]; [constructor|].
  simpl.
  assert (Hin : forall y, In y (Sql.distinct_on same_session l) -> id_le a y).
  { intros y Hy. apply distinct_on_In in Hy.
    rewrite Forall_forall in Ha. now apply Ha. }
  destruct (Sql.distinct_on same_session l) as [|b r]; [repeat constructor|].
  inversion IH as [|? ? Hr Hb]; subst.
  unfold same_session.
  destruct (Nat.eqb (ks_id (fst a)) (ks_id (fst b))) eqn:Hab.
  - apply Nat.eqb_eq in Hab. constructor; [assumption|].
    eapply Forall_impl; [|exact Hb]. unfold id_lt. intros y Hy. lia.
  - apply Nat.eqb_neq in Hab. constructor; [assumption|].
    assert (Hlt : id_lt a b).
    { specialize (Hin b (or_introl eq_refl)). unfold id_le, id_lt in *. lia. }
    constructor; [assumption|].
    eapply Forall_impl; [|exact Hb]. unfold id_lt in *. intros y Hy. lia.
Qed.

Lemma successful_session_rows_sorted db user_id session_id :
  StronglySorted id_le
    (Sql.order_by by_id_then_recent (successful_session_rows db user_id session_id)).
Proof.
  pose proof (order_by_sorted by_id_then_recent by_id_then_recent_total
                by_id_then_recent_trans
                (successful_session_rows db user_id session_id)) as H.
  induction H as [|a l _ IH Ha]; constructor; [assumption|].
  eapply Forall_impl; [|exact Ha].
  intros b Hb. apply by_id_then_recent_spec in Hb. unfold id_le. lia.
Qed.

Lemma historical_sessions_length db user_id session_id :
  (length (historical_sessions db user_id session_id) <= 5)%nat.
Proof. unfold historical_sessions. rewrite length_map. apply firstn_le_length. Qed.

Lemma has_successful_attempt_spec db user_id :
  has_successful_attempt db user_id = true <->
  exists aa, In aa (auth_attempts db) /\ aa_user_id aa = user_id /\ aa_success aa = true.
Proof.
  unfold has_successful_attempt. rewrite existsb_exists.
  split; intros [aa [Hin H]]; exists aa; (split; [assumption|]).
  - apply andb_prop in H as [Hu Hs]. apply Nat.eqb_eq in Hu. now split.
  - destruct H as [-> ->]. now rewrite Nat.eqb_refl.
Qed.

Lemma successful_session_rows_spec db user_id session_id r :
  In r (successful_session_rows db user_id session_id) <->
  In (fst r) (keystroke_sessions db) /\ In (snd r) (auth_attempts db)
  /\ ks_user_id (fst r) = user_id /\ aa_user_id (snd r) = user_id
  /\ ks_id (fst r) <> session_id /\ aa_success (snd r) = true.
Proof.
  unfold successful_session_rows.
  rewrite filter_In, in_flat_map, !andb_true_iff, negb_true_iff, Nat.eqb_eq, Nat.eqb_neq.
  split.
  - intros [[ks [Hks Hr]] [[Hu Hn] Hs]].
    apply in_map_iff in Hr as [aa [<- Haa]].
    apply filter_In in Haa as [Haa Hua]. apply Nat.eqb_eq in Hua.
    simpl in *. repeat split; congruence.
  - intros [Hks [Haa [Hu [Hua [Hn Hs]]]]].
    split; [|tauto].
    exists (fst r). split; [assumption|].
    apply in_map_iff. exists (snd r). split; [now destruct r|].
    apply filter_In. split; [assumption|]. apply Nat.eqb_eq. congruence.
Qed.

Lemma candidate_sessions_spec db user_id session_id c :
  In c (candidate_sessions db user_id session_id) <->
  exists r, In r (successful_session_rows db user_id session_id) /\ ks_id (fst r) = c.
Proof.
  unfold candidate_sessions. rewrite in_map_iff. split.
  - intros [ks [<- Hks]]. apply filter_In in Hks as [Hks H].
    apply andb_prop in H as [H Hs]. apply andb_prop in H as [Hu Hn].
    apply has_successful_attempt_spec in Hs as [aa [Haa [Hua Hsa]]].
    apply Nat.eqb_eq in Hu. apply negb_true_iff, Nat.eqb_neq in Hn.
    exists (ks, aa). split; [|reflexivity].
    apply successful_session_rows_spec. simpl. tauto.
  - intros [r [Hr <-]]. apply successful_session_rows_spec in Hr.
    destruct Hr as [Hks [Haa [Hu [Hua [Hn Hs]]]]].
    exists (fst r). split; [reflexivity|].
    apply filter_In. split; [assumption|].
    rewrite !andb_true_iff, negb_true_iff, Nat.eqb_eq, Nat.eqb_neq.
    repeat split; try assumption.
    apply has_successful_attempt_spec. eauto.
Qed.

Lemma historical_sessions_candidates db user_id session_id s :
  In s (historical_sessions db user_id session_id) ->
  In s (candidate_sessions db user_id session_id).
Proof.
  unfold historical_sessions. intros H.
  apply in_map_iff in H as [r [<- Hr]].
  apply firstn_In, distinct_on_In, order_by_In in Hr.
  apply candidate_sessions_spec. eauto.
Qed.

(** The cap keeps the smallest session ids. *)
Lemma historical_sessions_smallest db user_id session_id c :
  In c (candidate_sessions db user_id session_id) ->
  ~ In c (historical_sessions db user_id session_id) ->
  Forall (fun s => (s < c)%nat) (historical_sessions db user_id session_id).
Proof.
  intros Hc Hn. apply candidate_sessions_spec in Hc as [r [Hr <-]].
  pose proof (successful_session_rows_sorted db user_id session_id) as Hs.
  apply (order_by_In by_id_then_recent) in Hr.
  destruct (distinct_on_complete _ Hs r Hr) as [y [Hy Hid]].
  apply distinct_on_sorted in Hs.
  unfold historical_sessions in *.
  set (dist := Sql.distinct_on same_session
                 (Sql.order_by by_id_then_recent
                    (successful_session_rows db user_id session_id))) in *.
  rewrite <- (firstn_skipn 5 dist) in Hy. apply in_app_or in Hy as [Hy|Hy].
  - exfalso. apply Hn. apply in_map_iff. exists y. split; assumption.
  - apply (sorted_firstn_skipn _ 5) in Hs.
    apply Forall_forall. intros s Hin.
    apply in_map_iff in Hin as [x [<- Hx]].
    rewrite Forall_forall in Hs. specialize (Hs x Hx).
    rewrite Forall_forall in Hs. specialize (Hs y Hy).
    unfold id_lt in Hs. lia.
Qed.

Lemma historical_keystrokes_selected db user_id session_id pattern_length s :
  In s (map fst (historical_keystrokes db user_id session_id pattern_length)) ->
  In s (historical_sessions db user_id session_id)
  /\ length (session_samples db s) = pattern_length.
Proof.
  unfold historical_keystrokes. intros H.
  apply in_map_iff in H as [hk [<- H]].
  apply in_flat_map in H as [hs [Hhs H]].
  pose proof (order_by_length created_at_asc
                (filter (fun kd => Nat.eqb (kd_session_id kd) hs) (keystroke_data db)))
    as Hlen.
  destruct (Sql.order_by _ _) as [|r rows]; [contradiction|].
  destruct (Nat.eqb (length (r :: rows)) pattern_length) eqn:E; [|contradiction].
  destruct H as [<-|[]]. simpl. split; [assumption|].
  unfold session_samples. rewrite <- Hlen. now apply Nat.eqb_eq.
Qed.

Lemma flat_map_length_le {A B : Type} (f : A -> list B) (l : list A) :
  (forall x, length (f x) <= 1)%nat -> (length (flat_map f l) <= length l)%nat.
Proof.
  intros H. induction l as [|x l IH]; simpl; [lia|].
  rewrite length_app. specialize (H x). lia.
Qed.

Lemma historical_keystrokes_length db user_id session_id pattern_length :
  (length (historical_keystrokes db user_id session_id pattern_length)
   <= length (historical_sessions db user_id session_id))%nat.
Proof.
  unfold historical_keystrokes. apply flat_map_length_le.
  intros hs. destruct (Sql.order_by _ _) as [|r rows]; [simpl; lia|].
  match goal with |- context [if ?c then _ else _] => destruct c end; simpl; lia.
Qed.

(** The version of flat_meadow selects the same sessions. *)
Lemma flat_meadow_selection db user_id session_id pattern_length :
  Permutation
    (map fst (historical_keystrokes db user_id session_id pattern_length))
    (map (fun hk => fst (fst hk))
       (FlatMeadow.historical_keystrokes db user_id session_id pattern_length)).
Proof.
  unfold FlatMeadow.historical_keystrokes.
  rewrite <- (order_by_perm FlatMeadow.session_attempted_at_desc).
  unfold historical_keystrokes, historical_sessions, FlatMeadow.historical_sessions.
  induction (firstn 5 _) as [|r rows IH]; [reflexivity|].
  simpl. rewrite !map_app. apply Permutation_app; [|exact IH].
  destruct (Sql.order_by _ _) as [|kd kds]; [reflexivity|].
  destruct (Nat.eqb (length (kd :: kds)) pattern_length); reflexivity.
Qed.

(** C4, as the code has it.  The selector returns at most 5 sessions;
    each belongs to the subject, is not the current session, has a
    subject with a successful attempt, and has exactly [pattern_length]
    samples.  The cap comes before the length filter and follows the
    session ids: the selected sessions are among the at most five
    candidates of smallest id, whatever the dates of the attempts.  The
    versions of part_005 and of flat_meadow select the same sessions. *)
Theorem historical_selection db user_id session_id pattern_length :
  (length (historical_keystrokes db user_id session_id pattern_length) <= 5)%nat
  /\ Forall (fun s => In s (qualifying_sessions db user_id session_id pattern_length))
       (map fst (historical_keystrokes db user_id session_id pattern_length))
  /\ Forall (fun s => In s (historical_sessions db user_id session_id))
       (map fst (historical_keystrokes db user_id session_id pattern_length))
  /\ (length (historical_sessions db user_id session_id) <= 5)%nat
  /\ Forall (fun s => In s (candidate_sessions db user_id session_id))
       (historical_sessions db user_id session_id)
  /\ (forall c,
        In c (candidate_sessions db user_id session_id) ->
        ~ In c (historical_sessions db user_id session_id) ->
        Forall (fun s => (s < c)%nat) (historical_sessions db user_id session_id))
  /\ Permutation
       (map fst (historical_keystrokes db user_id session_id pattern_length))
       (map (fun hk => fst (fst hk))
          (FlatMeadow.historical_keystrokes db user_id session_id pattern_length)).
Proof.
  pose proof (historical_sessions_length db user_id session_id) as Hl.
  pose proof (historical_keystrokes_length db user_id session_id pattern_length) as Hk.
  split; [lia|].
  split.
  { apply Forall_forall. intros s Hs.
    apply historical_keystrokes_selected in Hs as [Hs Hn].
    unfold qualifying_sessions. apply filter_In.
    split; [now apply historical_sessions_candidates|now apply Nat.eqb_eq]. }
  split.
  { apply Forall_forall. intros s Hs.
    now apply historical_keystrokes_selected in Hs. }
  split; [assumption|].
  split.
  { apply Forall_forall. intros s Hs. now apply historical_sessions_candidates. }
  split; [intros c; apply historical_sessions_smallest|].
  apply flat_meadow_selection.
Qed.

(** C4 as stated fails: six sessions of the subject qualify, with one
    sample like the current session 12, and none is selected, since the
    five sessions of smallest id fill the cap and have two samples. *)
Lemma crowded_selection_is_empty :
  qualifying_sessions crowded_database 1%nat 12%nat 1 = [6; 7; 8; 9; 10; 11]%nat
  /\ historical_sessions crowded_database 1%nat 12%nat = [1; 2; 3; 4; 5]%nat
  /\ historical_keystrokes crowded_database 1%nat 12%nat 1 = []
  /\ FlatMeadow.historical_keystrokes crowded_database 1%nat 12%nat 1 = [].
Proof. repeat split; reflexivity. Qed.

(** ** The score and the distance *)




(** ** The example patterns *)

Lemma normalize_two (x y u v : R) :
  0 <= x <= 5000 -> 0 <= y <= 5000 -> 0 <= u <= 5000 -> 0 <= v <= 5000 ->
  normalize_keystroke_pattern [Some x; Some y] [Some u; Some v]
  = Some (pattern_of
            [((x - (x + y) / 2) / Rmax (sqrt ((x - y) ^ 2 / 3)) min_std,
              (u - (u + v) / 2) / Rmax (sqrt ((u - v) ^ 2 / 3)) min_std);
             ((y - (x + y) / 2) / Rmax (sqrt ((x - y) ^ 2 / 3)) min_std,
              (v - (u + v) / 2) / Rmax (sqrt ((u - v) ^ 2 / 3)) min_std)]).
Proof.
  intros Hx Hy Hu Hv. unfold normalize_keystroke_pattern.
  change [Some x; Some y] with (map Some [x; y]).
  change [Some u; Some v] with (map Some [u; v]).
  rewrite (validate_in_range [x; y]), (validate_in_range [u; v])
    by (repeat (apply Forall_cons; [assumption|]); apply Forall_nil).
  change (lengths_differ [x; y] [u; v]) with false. cbv iota.
  rewrite dwell_mean_is_series_mean by discriminate.
  unfold dwell_std, flight_std, flight_mean, statistics_rows, series_mean. simpl.
  apply (f_equal Some).
  repeat lazymatch goal with
         | |- Some _ = Some _ => apply (f_equal Some)
         | |- _ :: _ = _ :: _ => apply (f_equal2 cons)
         | |- (_, _) = (_, _) => apply (f_equal2 pair)
         | |- [] = [] => reflexivity
         end.
  all: apply (f_equal2 Rdiv); [lra|].
  all: apply (f_equal2 Rmax); [|reflexivity].
  all: apply (f_equal sqrt).
  all: field.
Qed.

Lemma deviation_of_100_200 : Rmax (sqrt ((100 - 200) ^ 2 / 3)) min_std = sqrt (10000 / 3).
Proof.
  replace ((100 - 200) ^ 2 / 3) with (10000 / 3) by lra.
  apply Rmax_left. unfold min_std.
  pose proof (sqrt_lower 1 (10000 / 3)). lra.
Qed.

Lemma deviation_of_200_100 : Rmax (sqrt ((200 - 100) ^ 2 / 3)) min_std = sqrt (10000 / 3).
Proof.
  replace ((200 - 100) ^ 2 / 3) with (10000 / 3) by lra.
  apply Rmax_left. unfold min_std.
  pose proof (sqrt_lower 1 (10000 / 3)). lra.
Qed.

Lemma example_patterns_normalized :
  normalize_keystroke_pattern [Some 100; Some 200] [Some 100; Some 200]
  = Some (pattern_of rising_pattern)
  /\ normalize_keystroke_pattern [Some 100; Some 100] [Some 100; Some 100]
     = Some (pattern_of flat_pattern)
  /\ normalize_keystroke_pattern [Some 200; Some 100] [Some 100; Some 200]
     = Some (pattern_of crossed_pattern).
Proof.
  assert (Hp : 0 < sqrt (10000 / 3)) by (apply sqrt_lt_R0; lra).
  rewrite !normalize_two by lra.
  rewrite deviation_of_100_200, deviation_of_200_100.
  unfold rising_pattern, flat_pattern, crossed_pattern, unit_z.
  repeat split; apply (f_equal Some); apply (f_equal pattern_of);
    repeat lazymatch goal with
           | |- _ :: _ = _ :: _ => apply (f_equal2 cons)
           | |- (_, _) = (_, _) => apply (f_equal2 pair)
           | |- [] = [] => reflexivity
           end;
    try (field; lra);
    replace (100 - (100 + 100) / 2) with 0 by lra; unfold Rdiv; ring.
Qed.

(** * Further properties *)

(** ** Bounds on sums and means *)

Lemma non_null_map_Some {A : Type} (l : list A) : Sql.non_null (map Some l) = l.
Proof. induction l as [|x l IH]; simpl; congruence. Qed.

Lemma non_null_Forall {A : Type} (P : A -> Prop) (l : list (option A)) :
  Forall (fun o => forall v, o = Some v -> P v) l -> Forall P (Sql.non_null l).
Proof.
  induction 1 as [|[v|] l Ho _ IH]; simpl; [constructor| |assumption].
  constructor; [now apply Ho|assumption].
Qed.

Lemma sum_bounds (a b : R) (l : list R) :
  Forall (fun v => a <= v <= b) l ->
  INR (length l) * a <= Sql.sum l <= INR (length l) * b.
Proof.
  induction 1 as [|v l Hv _ IH].
  - simpl. lra.
  - change (Sql.sum (v :: l)) with (v + Sql.sum l).
    change (length (v :: l)) with (S (length l)). rewrite S_INR. lra.
Qed.

Lemma avg_range (a b m : R) (l : list R) :
  Forall (fun v => a <= v <= b) l -> Sql.avg l = Some m -> a <= m <= b.
Proof.
  intros Hl Ha. destruct l as [|x l]; [discriminate|].
  assert (Hm : m = Sql.sum (x :: l) / INR (length (x :: l)))
    by (unfold Sql.avg in Ha; congruence).
  clear Ha. subst m.
  pose proof (sum_bounds a b _ Hl) as Hs.
  assert (Hn : 0 < INR (length (x :: l))) by (apply lt_0_INR; simpl; lia).
  set (N := INR (length (x :: l))) in *.
  set (T := Sql.sum (x :: l)) in *.
  assert (HT : T = T / N * N) by (field; lra).
  split; apply Rmult_le_reg_r with N; lra.
Qed.

(** ** Who may call the verification, and what it answers *)







(** ** Rows that the selection for a user does not see *)

Lemma filter_nil_all {A : Type} (f : A -> bool) (l : list A) :
  (forall x, In x l -> f x = false) -> filter f l = [].
Proof.
  induction l as [|a l IH]; intros H; [reflexivity|].
  simpl. rewrite (H a) by now left. apply IH. intros x Hx. apply H. now right.
Qed.

Lemma recent_attempts_rows_insert db now user_id cap aa :
  qualifying now user_id aa = false ->
  recent_attempts_rows (insert_auth_attempt db aa) now user_id cap
  = recent_attempts_rows db now user_id cap.
Proof.
  intros Hq. unfold recent_attempts_rows. cbn [insert_auth_attempt auth_attempts].
  rewrite filter_app. cbn [filter]. unfold qualifying in Hq. rewrite Hq.
  now rewrite app_nil_r.
Qed.

Lemma calculate_adaptive_threshold_insert db now user_id cap aa :
  qualifying now user_id aa = false ->
  calculate_adaptive_threshold (insert_auth_attempt db aa) now user_id cap
  = calculate_adaptive_threshold db now user_id cap.
Proof.
  intros Hq. unfold calculate_adaptive_threshold, recent_scores.
  now rewrite recent_attempts_rows_insert.
Qed.

Lemma successful_session_rows_insert_attempt db user_id session_id aa :
  aa_user_id aa <> user_id \/ aa_success aa = false ->
  successful_session_rows (insert_auth_attempt db aa) user_id session_id
  = successful_session_rows db user_id session_id.
Proof.
  intros Haa. unfold successful_session_rows.
  cbn [insert_auth_attempt auth_attempts keystroke_sessions].
  induction (keystroke_sessions db) as [|ks l IH]; [reflexivity|].
  cbn [flat_map]. rewrite !filter_app, IH. f_equal.
  rewrite map_app, filter_app.
  rewrite (filter_nil_all _ (map (fun aa0 => (ks, aa0)) (filter _ [aa]))).
  - apply app_nil_r.
  - intros r Hr. apply in_map_iff in Hr as [a [<- Ha]].
    apply filter_In in Ha as [[<-|[]] Hu]. cbn [fst snd].
    apply Nat.eqb_eq in Hu.
    destruct Haa as [Hne| ->]; [|apply andb_false_r].
    destruct (Nat.eqb_spec (ks_user_id ks) user_id) as [E|_]; [|reflexivity].
    exfalso. apply Hne. congruence.
Qed.

Lemma successful_session_rows_insert_session db user_id session_id ks :
  ks_user_id ks <> user_id ->
  successful_session_rows (insert_keystroke_session db ks) user_id session_id
  = successful_session_rows db user_id session_id.
Proof.
  intros Hks. unfold successful_session_rows.
  cbn [insert_keystroke_session auth_attempts keystroke_sessions].
  rewrite flat_map_app, filter_app. cbn [flat_map]. rewrite app_nil_r.
  rewrite (filter_nil_all _ (map _ _)); [apply app_nil_r|].
  intros r Hr. apply in_map_iff in Hr as [a [<- _]]. cbn [fst snd].
  destruct (Nat.eqb_spec (ks_user_id ks) user_id) as [E|_]; [contradiction|reflexivity].
Qed.

(** X9.  What is selected for a subject does not depend on the others:
    after a session of another user is inserted, or an attempt that is
    another user's or not successful, the threshold (square_silence,
    lines 79-87), the selected sessions and their arrays (part_005,
    lines 78-104; flat_meadow, lines 129-151) are what they were. *)
Theorem selection_ignores_other_users db now user_id session_id cap pattern_length aa ks :
  aa_user_id aa <> user_id \/ aa_success aa = false ->
  ks_user_id ks <> user_id ->
  calculate_adaptive_threshold (insert_auth_attempt db aa) now user_id cap
  = calculate_adaptive_threshold db now user_id cap
  /\ historical_sessions (insert_auth_attempt db aa) user_id session_id
     = historical_sessions db user_id session_id
  /\ historical_sessions (insert_keystroke_session db ks) user_id session_id
     = historical_sessions db user_id session_id
  /\ historical_keystrokes (insert_auth_attempt db aa) user_id session_id pattern_length
     = historical_keystrokes db user_id session_id pattern_length
  /\ historical_keystrokes (insert_keystroke_session db ks) user_id session_id
       pattern_length
     = historical_keystrokes db user_id session_id pattern_length
  /\ FlatMeadow.historical_keystrokes (insert_auth_attempt db aa) user_id session_id
       pattern_length
     = FlatMeadow.historical_keystrokes db user_id session_id pattern_length
  /\ FlatMeadow.historical_keystrokes (insert_keystroke_session db ks) user_id session_id
       pattern_length
     = FlatMeadow.historical_keystrokes db user_id session_id pattern_length.
Proof.
  intros Haa Hks.
  assert (Hq : qualifying now user_id aa = false).
  { unfold qualifying. destruct Haa as [Hne| ->].
    - destruct (Nat.eqb_spec (aa_user_id aa) user_id); [contradiction|reflexivity].
    - now rewrite andb_false_r. }
  pose proof (successful_session_rows_insert_attempt db user_id session_id aa Haa) as Ha.
  pose proof (successful_session_rows_insert_session db user_id session_id ks Hks) as Hs.
  split; [now apply calculate_adaptive_threshold_insert|].
  unfold historical_keystrokes, FlatMeadow.historical_keystrokes,
    historical_sessions, FlatMeadow.historical_sessions.
  rewrite Ha, Hs. repeat split.
Qed.

Lemma selection_ignores_other_users_witness :
  historical_keystrokes
    (insert_auth_attempt repeated_typing_database
       {| aa_user_id := 2%nat; aa_success := true; aa_keystroke_match := true;
          aa_location_match := true; aa_match_score := Some 0.1;
          aa_attempted_at := 15%Z |})
    1%nat 2%nat 2
  = historical_keystrokes repeated_typing_database 1%nat 2%nat 2.
Proof.
  apply (selection_ignores_other_users repeated_typing_database 20%Z 1%nat 2%nat 10 2
           {| aa_user_id := 2%nat; aa_success := true; aa_keystroke_match := true;
              aa_location_match := true; aa_match_score := Some 0.1;
              aa_attempted_at := 15%Z |}
           {| ks_id := 3%nat; ks_user_id := 2%nat |}).
  - left. simpl. lia.
  - simpl. lia.
Defined.

(** ** The range of the threshold *)

(** X10.  The adaptive threshold is the default 0.7 or lies within 0.8
    times the range of the recorded scores: when every score on record
    is between [lo] and [hi], so is the mean the function scales
    (square_silence, lines 77-90). *)
Theorem calculate_adaptive_threshold_range db now user_id cap lo hi :
  Forall (fun aa => forall s, aa_match_score aa = Some s -> lo <= s <= hi)
    (auth_attempts db) ->
  calculate_adaptive_threshold db now user_id cap = 0.7
  \/ 0.8 * lo <= calculate_adaptive_threshold db now user_id cap <= 0.8 * hi.
Proof.
  intros Hall. unfold calculate_adaptive_threshold.
  destruct (Sql.avg (Sql.non_null (recent_scores db now user_id cap))) as [a|] eqn:Ea;
    [right|now left].
  simpl. apply (avg_range lo hi a _) in Ea; [lra|].
  apply non_null_Forall, Forall_forall. intros o Ho s Hs. subst o.
  unfold recent_scores in Ho. apply in_map_iff in Ho as [aa [Haa Hin]].
  unfold recent_attempts_rows in Hin.
  apply firstn_In, order_by_In, filter_In in Hin as [Hin _].
  rewrite Forall_forall in Hall. now apply (Hall aa).
Qed.

Lemma calculate_adaptive_threshold_range_witness :
  calculate_adaptive_threshold scored_attempts_database 1000000000000%Z 1%nat 10 = 0.7
  \/ 0.8 * 0.1
     <= calculate_adaptive_threshold scored_attempts_database 1000000000000%Z 1%nat 10
     <= 0.8 * 0.9.
Proof.
  apply calculate_adaptive_threshold_range.
  unfold scored_attempts_database. cbn [auth_attempts].
  repeat (apply Forall_cons; [cbn; intros s [= <-]; lra|]).
  apply Forall_nil.
Defined.

(** ** The normalizer on arrays of any length *)

Lemma list_prod_nil_r {A B : Type} (l : list A) : list_prod l (@nil B) = [].
Proof. induction l as [|a l IH]; [reflexivity|exact IH]. Qed.

Lemma lengths_differ_spec (d f : list R) :
  lengths_differ d f = true <-> d <> [] /\ f <> [] /\ length d <> length f.
Proof.
  unfold lengths_differ.
  destruct d as [|x d]; [split; [discriminate|intros [H _]; contradiction]|].
  destruct f as [|y f]; [split; [discriminate|intros [_ [H _]]; contradiction]|].
  cbn [Sql.array_length].
  destruct (Nat.eqb_spec (length (x :: d)) (length (y :: f))) as [E|E]; cbn [negb].
  - split; [discriminate|]. intros [_ [_ H]]. contradiction.
  - split; [|reflexivity]. intros _. repeat split; try discriminate. exact E.
Qed.

(** X11.  [normalize_keystroke_pattern] (flat_meadow, lines 34-75)
    returns NULL exactly when both arrays are non-empty and differ in
    length.  When one array is empty the length guard (lines 53-55)
    compares with a NULL and lets the call through: the result then has one row per
    element of the other array, and every entry of it is NULL. *)
Theorem normalize_null_cases (dwell_times flight_times : list (option R)) :
  (normalize_keystroke_pattern dwell_times flight_times = None
   <-> dwell_times <> [] /\ flight_times <> []
       /\ length dwell_times <> length flight_times)
  /\ normalize_keystroke_pattern [] flight_times
     = Some (map (fun _ => (None, None)) flight_times)
  /\ normalize_keystroke_pattern dwell_times []
     = Some (map (fun _ => (None, None)) dwell_times).
Proof.
  split; [|split].
  - unfold normalize_keystroke_pattern.
    pose proof (lengths_differ_spec (validate_keystroke_array dwell_times)
                  (validate_keystroke_array flight_times)) as Hs.
    rewrite !validate_keystroke_array_length in Hs.
    destruct (lengths_differ _ _).
    + split; [intros _|reflexivity].
      destruct Hs as [[Hd [Hf Hl]] _]; [reflexivity|].
      repeat split; try assumption; intros ->; now apply Hd || now apply Hf.
    + split; [discriminate|]. intros [Hd [Hf Hl]].
      destruct Hs as [_ Hs]. exfalso.
      assert (E : false = true); [|discriminate].
      apply Hs. repeat split; try assumption.
      * intros E. apply map_eq_nil in E. contradiction.
      * intros E. apply map_eq_nil in E. contradiction.
  - unfold normalize_keystroke_pattern. cbn [validate_keystroke_array map].
    unfold lengths_differ. cbn [Sql.array_length].
    unfold dwell_mean, flight_mean, statistics_rows. cbn [list_prod map Sql.avg unnest2].
    unfold validate_keystroke_array.
    rewrite !map_map. apply (f_equal Some), map_ext. reflexivity.
  - unfold normalize_keystroke_pattern, validate_keystroke_array. cbn [map].
    unfold lengths_differ.
    replace (match Sql.array_length (map validate_value dwell_times) with
             | Some a => match Sql.array_length (@nil R) with
                         | Some b => negb (Nat.eqb a b)
                         | None => false
                         end
             | None => false
             end) with false
      by (destruct (Sql.array_length (map validate_value dwell_times)); reflexivity).
    unfold dwell_mean, flight_mean, statistics_rows. rewrite list_prod_nil_r.
    cbn [map Sql.avg].
    destruct dwell_times as [|d ds]; [reflexivity|].
    cbn [map unnest2]. rewrite !map_map. cbn [map].
    apply (f_equal Some), (f_equal2 cons); [reflexivity|].
    apply map_ext. reflexivity.
Qed.

(** ** The statistics over the cross join *)

Lemma sum_cross_fst (g : R -> R) (d f : list R) :
  Sql.sum (map (fun r => g (fst r)) (list_prod d f))
  = INR (length f) * Sql.sum (map g d).
Proof.
  induction d as [|x d IH]; [simpl; lra|].
  cbn [list_prod]. rewrite map_app, sum_app, IH, map_map. cbn [fst map].
  rewrite (sum_constant (g x)).
  - rewrite length_map. change (Sql.sum (g x :: map g d)) with (g x + Sql.sum (map g d)).
    lra.
  - apply Forall_forall. intros y Hy. apply in_map_iff in Hy as [? [<- _]]. reflexivity.
Qed.

Lemma sum_cross_snd (g : R -> R) (d f : list R) :
  Sql.sum (map (fun r => g (snd r)) (list_prod d f))
  = INR (length d) * Sql.sum (map g f).
Proof.
  induction d as [|x d IH]; [simpl; lra|].
  cbn [list_prod]. rewrite map_app, sum_app, IH, map_map.
  rewrite (map_ext (fun y => g (snd (x, y))) g) by reflexivity.
  change (length (x :: d)) with (S (length d)). rewrite S_INR. lra.
Qed.

Lemma flight_mean_is_series_mean (d f : list R) :
  d <> [] -> f <> [] -> flight_mean d f = Some (series_mean f).
Proof.
  intros Hd Hf. unfold flight_mean, Sql.avg.
  destruct (map snd (statistics_rows d f)) eqn:E.
  - apply map_eq_nil in E. now apply statistics_rows_not_nil in E.
  - rewrite <- E. f_equal.
    assert (Hs : Sql.sum (map snd (list_prod d f)) = INR (length d) * Sql.sum f).
    { rewrite <- (map_id f) at 2. exact (sum_cross_snd (fun x => x) d f). }
    unfold statistics_rows. rewrite Hs.
    rewrite length_map, length_prod, mult_INR.
    unfold series_mean.
    assert (INR (length d) <> 0) by (apply not_0_INR; now destruct d).
    assert (INR (length f) <> 0) by (apply not_0_INR; now destruct f).
    field. split; assumption.
Qed.

(** The z-scores of two validated arrays of one length. *)
Lemma normalize_equal_lengths_validated (d f : list R) :
  length d = length f ->
  Some (map (fun t =>
               (zscore (fst t) (dwell_mean d f) (dwell_std d f),
                zscore (snd t) (flight_mean d f) (flight_std d f)))
          (unnest2 d f))
  = Some (pattern_of
            (map (fun t => ((fst t - series_mean d) / dwell_std d f,
                            (snd t - series_mean f) / flight_std d f))
               (combine d f))).
Proof.
  intros Hl. rewrite unnest2_same_length by assumption.
  destruct d as [|x d]; destruct f as [|y f]; try discriminate; [reflexivity|].
  rewrite dwell_mean_is_series_mean, flight_mean_is_series_mean by discriminate.
  unfold pattern_of. rewrite !map_map. reflexivity.
Qed.

(** X12.  On two arrays of one length the normalizer returns, for each
    keystroke, the dwell time minus the mean of the validated dwell
    series and the flight time minus the mean of the validated flight
    series, each divided by the deviation that the cross join gives
    (flat_meadow, lines 57-71): the means are those of the series, and
    no entry is NULL. *)
Theorem normalize_equal_lengths (dwell_times flight_times : list (option R)) :
  length dwell_times = length flight_times ->
  normalize_keystroke_pattern dwell_times flight_times
  = Some (pattern_of
            (map (fun t =>
                    ((fst t - series_mean (validate_keystroke_array dwell_times))
                     / dwell_std (validate_keystroke_array dwell_times)
                         (validate_keystroke_array flight_times),
                     (snd t - series_mean (validate_keystroke_array flight_times))
                     / flight_std (validate_keystroke_array dwell_times)
                         (validate_keystroke_array flight_times)))
               (combine (validate_keystroke_array dwell_times)
                  (validate_keystroke_array flight_times)))).
Proof.
  intros Hl. unfold normalize_keystroke_pattern.
  rewrite lengths_differ_same_length by now rewrite !validate_keystroke_array_length.
  apply normalize_equal_lengths_validated.
  now rewrite !validate_keystroke_array_length.
Qed.

Lemma normalize_equal_lengths_witness :
  normalize_keystroke_pattern [Some 100; Some 200] [Some 0; Some 50]
  = Some (pattern_of
            (map (fun t =>
                    ((fst t - series_mean (validate_keystroke_array [Some 100; Some 200]))
                     / dwell_std (validate_keystroke_array [Some 100; Some 200])
                         (validate_keystroke_array [Some 0; Some 50]),
                     (snd t - series_mean (validate_keystroke_array [Some 0; Some 50]))
                     / flight_std (validate_keystroke_array [Some 100; Some 200])
                         (validate_keystroke_array [Some 0; Some 50])))
               (combine (validate_keystroke_array [Some 100; Some 200])
                  (validate_keystroke_array [Some 0; Some 50])))).
Proof.
  apply normalize_equal_lengths. reflexivity.
Defined.

Lemma sum_map_minus_mean (l : list R) :
  l <> [] -> Sql.sum (map (fun x => x - series_mean l) l) = 0.
Proof.
  intros Hne.
  assert (H : forall m k, Sql.sum (map (fun x => x - m) k) = Sql.sum k - INR (length k) * m).
  { intros m k. induction k as [|x k IH]; [simpl; lra|].
    change (length (x :: k)) with (S (length k)). rewrite S_INR.
    cbn [map]. unfold Sql.sum in *. cbn [fold_right]. rewrite IH. ring. }
  rewrite H. unfold series_mean.
  assert (INR (length l) <> 0) by (apply not_0_INR; now destruct l).
  field. assumption.
Qed.

Lemma sum_map_div (c : R) (l : list R) :
  Sql.sum (map (fun x => x / c) l) = Sql.sum l / c.
Proof.
  induction l as [|x l IH]; [simpl; unfold Rdiv; ring|].
  cbn [map]. unfold Sql.sum in *. cbn [fold_right]. rewrite IH. unfold Rdiv. ring.
Qed.

Lemma map_fst_combine_same_length {A B : Type} (a : list A) (b : list B) :
  length a = length b -> map fst (combine a b) = a.
Proof.
  revert b. induction a as [|x a IH]; intros [|y b] H; try discriminate; [reflexivity|].
  simpl. f_equal. apply IH. now injection H.
Qed.

Lemma map_snd_combine_same_length {A B : Type} (a : list A) (b : list B) :
  length a = length b -> map snd (combine a b) = b.
Proof.
  revert b. induction a as [|x a IH]; intros [|y b] H; try discriminate; [reflexivity|].
  simpl. f_equal. apply IH. now injection H.
Qed.

Lemma sum_zscores (m s : R) (l : list R) :
  l <> [] -> m = series_mean l -> Sql.sum (map (fun x => (x - m) / s) l) = 0.
Proof.
  intros Hne ->.
  rewrite <- (map_map (fun x => x - series_mean l) (fun y => y / s)).
  rewrite sum_map_div, sum_map_minus_mean by assumption.
  unfold Rdiv. ring.
Qed.

(** X13.  The z-scores of a normalized pattern are centred: over two
    arrays of one length the normalizer returns a pattern without NULL,
    of that length, whose dwell z-scores add up to zero and whose flight
    z-scores add up to zero, whatever deviation divides them. *)
Theorem normalize_centred (dwell_times flight_times : list (option R)) :
  length dwell_times = length flight_times ->
  exists z : list (R * R),
    normalize_keystroke_pattern dwell_times flight_times = Some (pattern_of z)
    /\ length z = length dwell_times
    /\ Sql.sum (map fst z) = 0
    /\ Sql.sum (map snd z) = 0.
Proof.
  intros Hl. unfold normalize_keystroke_pattern.
  rewrite lengths_differ_same_length by now rewrite !validate_keystroke_array_length.
  remember (validate_keystroke_array dwell_times) as d eqn:Hd.
  remember (validate_keystroke_array flight_times) as f eqn:Hf.
  assert (Hlen : length d = length f)
    by (subst d f; now rewrite !validate_keystroke_array_length).
  assert (Hdl : length d = length dwell_times)
    by (subst d; apply validate_keystroke_array_length).
  clear Hd Hf Hl.
  rewrite normalize_equal_lengths_validated by assumption.
  eexists. split; [reflexivity|].
  rewrite length_map, length_combine, <- Hlen, Nat.min_id.
  split; [exact Hdl|].
  rewrite !map_map. cbn [fst snd].
  destruct d as [|x d]; destruct f as [|y f]; try discriminate; [split; reflexivity|].
  split.
  - rewrite <- (map_map fst (fun v => (v - series_mean (x :: d))
                                      / dwell_std (x :: d) (y :: f))).
    rewrite map_fst_combine_same_length by assumption.
    apply sum_zscores; [discriminate|reflexivity].
  - rewrite <- (map_map snd (fun v => (v - series_mean (y :: f))
                                      / flight_std (x :: d) (y :: f))).
    rewrite map_snd_combine_same_length by assumption.
    apply sum_zscores; [discriminate|reflexivity].
Qed.

Lemma normalize_centred_witness :
  exists z : list (R * R),
    normalize_keystroke_pattern [Some 100; Some 200] [Some 0; Some 50]
    = Some (pattern_of z)
    /\ length z = 2%nat
    /\ Sql.sum (map fst z) = 0
    /\ Sql.sum (map snd z) = 0.
Proof.
  apply (normalize_centred [Some 100; Some 200] [Some 0; Some 50]). reflexivity.
Defined.

(** ** The deviation the normalizer divides by *)

Lemma sum_squared_deviations_nonneg (m : R) (l : list R) :
  0 <= Sql.sum (map (fun x => (x - m) ^ 2) l).
Proof.
  induction l as [|x l IH]; [simpl; lra|].
  cbn [map]. unfold Sql.sum in *. cbn [fold_right].
  pose proof (pow2_ge_0 (x - m)). lra.
Qed.

Lemma stddev_eq (l : list R) :
  (2 <= length l)%nat ->
  Sql.stddev l
  = Some (sqrt (Sql.sum (map (fun x => (x - Sql.sum l / INR (length l)) ^ 2) l)
                / INR (length l - 1))).
Proof.
  destruct l as [|a [|b l]]; simpl length; try lia. reflexivity.
Qed.

(** A column of the cross join that repeats every value of a series of
    [k] values [k] times. *)
Lemma cross_column_stddev (col series : list R) :
  (2 <= length series)%nat ->
  length col = (length series * length series)%nat ->
  (forall g : R -> R,
      Sql.sum (map g col) = INR (length series) * Sql.sum (map g series)) ->
  Sql.stddev col
  = Some (sqrt (INR (length series) / (INR (length series) + 1))
          * series_sample_std series).
Proof.
  intros Hk Hlen Hsum.
  assert (HN : 2 <= INR (length series))
    by (change 2 with (INR 2); now apply le_INR).
  set (N := INR (length series)) in *.
  rewrite stddev_eq by (rewrite Hlen; nia).
  f_equal.
  assert (Hmean : Sql.sum col / INR (length col) = series_mean series).
  { pose proof (Hsum (fun x => x)) as H. rewrite !map_id in H.
    rewrite H, Hlen, mult_INR. fold N. unfold series_mean. fold N. field. lra. }
  rewrite Hmean, Hsum.
  assert (Hl1 : INR (length col - 1) = N * N - 1).
  { rewrite minus_INR by (rewrite Hlen; nia). rewrite Hlen, mult_INR. fold N.
    simpl. lra. }
  rewrite Hl1.
  unfold series_sample_std.
  assert (Hs1 : INR (length series - 1) = N - 1)
    by (rewrite minus_INR by lia; fold N; simpl; lra).
  rewrite Hs1.
  pose proof (sum_squared_deviations_nonneg (series_mean series) series) as HSS.
  set (SS := Sql.sum (map (fun x => (x - series_mean series) ^ 2) series)) in *.
  rewrite <- sqrt_mult.
  - f_equal. field. repeat split; nra.
  - apply Rmult_le_pos; [lra|]. left. apply Rinv_0_lt_compat. lra.
  - apply Rmult_le_pos; [assumption|]. left. apply Rinv_0_lt_compat. lra.
Qed.

(** X14.  For two validated arrays of [n] values each, [n] at least 2,
    the deviation the normalizer divides the dwell times by is the
    sample deviation of the dwell series times the square root of
    [n / (n + 1)], raised to the floor 0.0001; likewise for the flight
    times.  The factor comes from [stddev] running over the [n * n] rows
    of the cross join (flat_meadow, lines 58-62). *)
Theorem normalizer_deviation (d f : list R) :
  length d = length f -> (2 <= length d)%nat ->
  dwell_std d f
  = Rmax (sqrt (INR (length d) / (INR (length d) + 1)) * series_sample_std d) min_std
  /\ flight_std d f
     = Rmax (sqrt (INR (length f) / (INR (length f) + 1)) * series_sample_std f) min_std.
Proof.
  intros Hl Hn. unfold dwell_std, flight_std, statistics_rows. split.
  - rewrite (cross_column_stddev _ d); [reflexivity|assumption| |].
    + rewrite length_map, length_prod. now rewrite <- Hl.
    + intros g. rewrite map_map, sum_cross_fst. now rewrite <- Hl.
  - rewrite (cross_column_stddev _ f); [reflexivity|lia| |].
    + rewrite length_map, length_prod. now rewrite Hl.
    + intros g. rewrite map_map, sum_cross_snd. now rewrite Hl.
Qed.

Lemma normalizer_deviation_witness :
  dwell_std [100; 200] [0; 50]
  = Rmax (sqrt (INR 2 / (INR 2 + 1)) * series_sample_std [100; 200]) min_std.
Proof.
  apply (normalizer_deviation [100; 200] [0; 50]); simpl; lia.
Defined.

(** ** Validated arrays *)

Lemma validate_value_fixed (value : option R) :
  validate_value (Some (validate_value value)) = validate_value value.
Proof.
  pose proof (validate_value_range value) as H.
  unfold validate_value at 1. decide_reals.
Qed.

(** X16.  Validating twice is validating once: the values
    [validate_keystroke_array] returns are in range, so a second pass
    changes nothing, and the normalizer, which validates its arguments
    itself, gives the same pattern for raw arrays as for validated
    ones.  This is the double validation of the version of flat_meadow
    (lines 152-157). *)
Theorem validate_keystroke_array_idempotent (dwell_times flight_times : list (option R)) :
  validate_keystroke_array (map Some (validate_keystroke_array dwell_times))
  = validate_keystroke_array dwell_times
  /\ normalize_keystroke_pattern
       (map Some (validate_keystroke_array dwell_times))
       (map Some (validate_keystroke_array flight_times))
     = normalize_keystroke_pattern dwell_times flight_times.
Proof.
  assert (H : forall arr, validate_keystroke_array (map Some (validate_keystroke_array arr))
                          = validate_keystroke_array arr).
  { intros arr. unfold validate_keystroke_array. rewrite !map_map.
    apply map_ext. intros v. apply validate_value_fixed. }
  split; [apply H|].
  unfold normalize_keystroke_pattern. now rewrite !H.
Qed.

(** ** The trigger and the rows the pages insert *)

Lemma insert_keystroke_data_cons db NEW rows :
  insert_keystroke_data db (NEW :: rows)
  = insert_keystroke_data
      {| keystroke_sessions := keystroke_sessions db;
         keystroke_data :=
           keystroke_data db ++ [calculate_keystroke_times (keystroke_data db) NEW];
         auth_attempts := auth_attempts db |}
      rows.
Proof. reflexivity. Qed.

Lemma insert_keystroke_data_Forall (P : keystroke_data_row -> Prop) db rows :
  (forall existing NEW, P (calculate_keystroke_times existing NEW)) ->
  Forall P (keystroke_data db) ->
  Forall P (keystroke_data (insert_keystroke_data db rows)).
Proof.
  intros HP. revert db. induction rows as [|NEW rows IH]; intros db Hdb; [exact Hdb|].
  rewrite insert_keystroke_data_cons. apply IH. cbn [keystroke_data].
  apply Forall_app. split; [assumption|]. constructor; [apply HP|constructor].
Qed.

Lemma after_verification_keystroke_data {J : Type} (match_score : J -> R)
  db user attempted_at (answer : call_result J) :
  keystroke_data (fst (after_verification match_score db user attempted_at answer))
  = keystroke_data db.
Proof. destruct answer; reflexivity. Qed.

(** X17.  Whatever dwell time a page sends, the trigger
    [calculate_keystroke_times] (flat_meadow, lines 308-333) stores the
    release time minus the press time: in every database the signup
    and login pages can produce, whatever the verification answers,
    each keystroke row has that dwell time. *)
Theorem reachable_dwell_times (db : database) :
  reachable db ->
  Forall (fun kd => kd_dwell_time kd = Some (kd_release_time kd - kd_press_time kd))
    (keystroke_data db).
Proof.
  induction 1 as [|db user session now keystrokes _ IH
                  |db user session now attempted_at keystrokes answer _ IH
                  |db user session now attempted_at keystrokes answer _ IH].
  - constructor.
  - unfold signup. apply insert_keystroke_data_Forall; [reflexivity|exact IH].
  - rewrite after_verification_keystroke_data.
    unfold login_database. apply insert_keystroke_data_Forall; [reflexivity|exact IH].
  - rewrite after_verification_keystroke_data.
    unfold login_database. apply insert_keystroke_data_Forall; [reflexivity|exact IH].
Qed.

Lemma reachable_dwell_times_witness :
  Forall (fun kd => kd_dwell_time kd = Some (kd_release_time kd - kd_press_time kd))
    (keystroke_data
       (signup empty_database 1%nat 1%nat 0%Z
          [{| key := "a"; press_time := 10; release_time := 95 |}])).
Proof.
  apply reachable_dwell_times. apply reachable_signup, reachable_empty.
Defined.

(** Rows inserted together carry one [created_at], so none of them is
    earlier than another and the trigger finds no previous keystroke. *)
Lemma insert_keystroke_data_batch db rows session now :
  Forall (fun kd => kd_session_id kd = session -> (now <= kd_created_at kd)%Z)
    (keystroke_data db) ->
  Forall (fun r => kd_session_id r = session /\ kd_created_at r = now) rows ->
  keystroke_data (insert_keystroke_data db rows)
  = keystroke_data db ++ map (calculate_keystroke_times []) rows.
Proof.
  revert db. induction rows as [|NEW rows IH]; intros db Hdb Hrows.
  - simpl. now rewrite app_nil_r.
  - inversion Hrows as [|? ? [Hs Hc] Hrest]; subst.
    assert (Hnew : calculate_keystroke_times (keystroke_data db) NEW
                   = calculate_keystroke_times [] NEW).
    { unfold calculate_keystroke_times.
      rewrite (filter_nil_all _ (keystroke_data db)); [reflexivity|].
      intros kd Hkd. rewrite Forall_forall in Hdb. specialize (Hdb kd Hkd).
      destruct (Nat.eqb_spec (kd_session_id kd) (kd_session_id NEW)) as [E|_];
        [|reflexivity].
      cbn [andb]. apply Z.ltb_ge. now apply Hdb. }
    rewrite insert_keystroke_data_cons, IH; cbn [keystroke_data].
    + rewrite Hnew, <- app_assoc. reflexivity.
    + apply Forall_app. split; [assumption|].
      constructor; [|constructor]. rewrite Hnew. cbn. intros _. lia.
    + assumption.
Qed.

Lemma no_samples_no_earlier_row db session now :
  session_samples db session = [] ->
  Forall (fun kd => kd_session_id kd = session -> (now <= kd_created_at kd)%Z)
    (keystroke_data db).
Proof.
  intros Hfresh. apply Forall_forall. intros kd Hkd Hs. exfalso.
  assert (Hin : In kd (session_samples db session)).
  { unfold session_samples. apply filter_In. split; [assumption|].
    now apply Nat.eqb_eq. }
  rewrite Hfresh in Hin. contradiction.
Qed.

(** X18.  The keystrokes of a new session are inserted in one
    statement and share one [created_at], so the trigger finds no
    earlier keystroke for any of them (flat_meadow, lines 314-320): the
    login page and the signup page leave the same rows, each with the
    dwell time computed and with no flight time. *)
Theorem new_session_has_no_flight_times db user session now keystrokes :
  session_samples db session = [] ->
  keystroke_data (login_database db user session now keystrokes)
  = keystroke_data db
    ++ map (fun stroke =>
              {| kd_session_id := session;
                 kd_press_time := press_time stroke;
                 kd_release_time := release_time stroke;
                 kd_dwell_time := Some (release_time stroke - press_time stroke);
                 kd_flight_time := None;
                 kd_created_at := now |})
         keystrokes
  /\ keystroke_data (signup db user session now keystrokes)
     = keystroke_data (login_database db user session now keystrokes).
Proof.
  intros Hfresh.
  pose proof (no_samples_no_earlier_row db session now Hfresh) as Hdb.
  assert (Hlogin : keystroke_data (login_database db user session now keystrokes)
                   = keystroke_data db
                     ++ map (fun stroke =>
                               {| kd_session_id := session;
                                  kd_press_time := press_time stroke;
                                  kd_release_time := release_time stroke;
                                  kd_dwell_time :=
                                    Some (release_time stroke - press_time stroke);
                                  kd_flight_time := None;
                                  kd_created_at := now |})
                          keystrokes).
  { unfold login_database.
    rewrite (insert_keystroke_data_batch _ _ session now).
    - cbn [insert_keystroke_session keystroke_data]. now rewrite map_map.
    - exact Hdb.
    - apply Forall_forall. intros r Hr. apply in_map_iff in Hr as [s [<- _]].
      split; reflexivity. }
  split; [exact Hlogin|].
  rewrite Hlogin. unfold signup.
  rewrite (insert_keystroke_data_batch _ _ session now).
  - cbn [insert_keystroke_session keystroke_data]. now rewrite map_map.
  - exact Hdb.
  - apply Forall_forall. intros r Hr. apply in_map_iff in Hr as [s [<- _]].
    split; reflexivity.
Qed.

Lemma new_session_has_no_flight_times_witness :
  keystroke_data
    (signup empty_database 1%nat 1%nat 0%Z
       [{| key := "a"; press_time := 10; release_time := 95 |};
        {| key := "b"; press_time := 120; release_time := 180 |}])
  = keystroke_data
      (login_database empty_database 1%nat 1%nat 0%Z
         [{| key := "a"; press_time := 10; release_time := 95 |};
          {| key := "b"; press_time := 120; release_time := 180 |}]).
Proof.
  apply (new_session_has_no_flight_times empty_database 1%nat 1%nat 0%Z). reflexivity.
Defined.

Lemma created_at_desc_total (a b : keystroke_data_row) :
  created_at_desc a b = true \/ created_at_desc b a = true.
Proof. unfold created_at_desc. rewrite !Z.leb_le. lia. Qed.

Lemma created_at_desc_trans (a b c : keystroke_data_row) :
  created_at_desc a b = true -> created_at_desc b c = true ->
  created_at_desc a c = true.
Proof. unfold created_at_desc. rewrite !Z.leb_le. lia. Qed.

(** X19.  What the trigger [calculate_keystroke_times] (flat_meadow,
    lines 308-333) makes of a row: the dwell time is the release time
    minus the press time; the flight time is left as sent when the
    session has no keystroke created earlier, and is otherwise the press
    time minus the release time of a latest such keystroke; nothing
    else changes. *)
Theorem calculate_keystroke_times_spec (existing : list keystroke_data_row)
  (NEW : keystroke_data_row) :
  let row := calculate_keystroke_times existing NEW in
  let earlier :=
    filter (fun kd => Nat.eqb (kd_session_id kd) (kd_session_id NEW)
                      && (kd_created_at kd <? kd_created_at NEW)%Z) existing in
  kd_dwell_time row = Some (kd_release_time NEW - kd_press_time NEW)
  /\ (earlier = [] -> kd_flight_time row = kd_flight_time NEW)
  /\ (earlier <> [] ->
      exists p, In p earlier
                /\ Forall (fun q => (kd_created_at q <= kd_created_at p)%Z) earlier
                /\ kd_flight_time row = Some (kd_press_time NEW - kd_release_time p))
  /\ kd_session_id row = kd_session_id NEW
  /\ kd_press_time row = kd_press_time NEW
  /\ kd_release_time row = kd_release_time NEW
  /\ kd_created_at row = kd_created_at NEW.
Proof.
  intros row earlier. unfold row, calculate_keystroke_times. fold earlier.
  cbn [kd_dwell_time kd_flight_time kd_session_id kd_press_time kd_release_time
         kd_created_at].
  repeat split.
  - intros ->. reflexivity.
  - intros Hne.
    pose proof (order_by_sorted created_at_desc created_at_desc_total
                  created_at_desc_trans earlier) as Hs.
    destruct (Sql.order_by created_at_desc earlier) as [|p rest] eqn:Eo.
    + apply order_by_nil in Eo. contradiction.
    + exists p. repeat split.
      * apply (order_by_In created_at_desc). rewrite Eo. now left.
      * apply Forall_forall. intros q Hq.
        apply (order_by_In created_at_desc) in Hq. rewrite Eo in Hq.
        destruct Hq as [<-|Hq]; [lia|].
        inversion Hs as [|? ? _ Hall]; subst.
        rewrite Forall_forall in Hall. specialize (Hall q Hq).
        unfold created_at_desc in Hall. now apply Z.leb_le.
Qed.

(** ** The login page *)










(** ** The keyboard handlers of the login page *)

Lemma release_time_is_zero_spec (stroke : KeystrokeData) :
  LoginPage.release_time_is_zero stroke = true <-> release_time stroke = 0.
Proof.
  unfold LoginPage.release_time_is_zero.
  destruct (Req_dec_T (release_time stroke) 0); split; congruence.
Qed.

(** X23.  What a key-up does to the recorded keystrokes (part_000,
    lines 149-158): it keeps their number, keys and press times; every
    keystroke of the released key that had no release time gets the
    time of the event, so that, the time not being 0, none of that key
    is left without one; every other keystroke is unchanged, and a
    release time once recorded is never overwritten. *)
Theorem handleKeyUp_spec (e_key : string) (releaseTime : R) (prev : list KeystrokeData) :
  map key (LoginPage.handleKeyUp e_key releaseTime prev) = map key prev
  /\ map press_time (LoginPage.handleKeyUp e_key releaseTime prev) = map press_time prev
  /\ Forall2 (fun before after =>
                if String.eqb (key before) e_key
                then (release_time before = 0 -> release_time after = releaseTime)
                     /\ (release_time before <> 0 -> after = before)
                else after = before)
       prev (LoginPage.handleKeyUp e_key releaseTime prev)
  /\ (releaseTime <> 0 ->
      Forall (fun stroke => key stroke = e_key -> release_time stroke <> 0)
        (LoginPage.handleKeyUp e_key releaseTime prev)).
Proof.
  unfold LoginPage.handleKeyUp. repeat split.
  - rewrite map_map. apply map_ext. intros stroke.
    destruct (_ && _); reflexivity.
  - rewrite map_map. apply map_ext. intros stroke.
    destruct (_ && _); reflexivity.
  - induction prev as [|stroke prev IH]; cbn [map]; constructor; [|exact IH].
    destruct (String.eqb (key stroke) e_key); cbn [andb]; [|reflexivity].
    pose proof (release_time_is_zero_spec stroke) as Hz.
    destruct (LoginPage.release_time_is_zero stroke).
    + split; [reflexivity|]. intros Hne. exfalso. apply Hne. now apply Hz.
    + split; [|reflexivity]. intros E. apply Hz in E. discriminate.
  - intros Hne. apply Forall_forall. intros stroke Hs.
    apply in_map_iff in Hs as [before [<- _]].
    pose proof (release_time_is_zero_spec before) as Hz.
    destruct (String.eqb_spec (key before) e_key) as [E|E]; cbn [andb].
    + destruct (LoginPage.release_time_is_zero before); cbn [release_time]; intros _.
      * exact Hne.
      * intros H0. apply Hz in H0. discriminate.
    + intros H. contradiction.
Qed.

Lemma keystrokes_after_snoc (events : list keyboard_event) (e : keyboard_event) :
  LoginPage.keystrokes_after (events ++ [e])
  = LoginPage.handle (LoginPage.keystrokes_after events) e.
Proof. unfold LoginPage.keystrokes_after. now rewrite fold_left_app. Qed.

Lemma presses_snoc (events : list keyboard_event) (e : keyboard_event) :
  presses (events ++ [e])
  = presses events ++ match e with
                      | keydown k t => [(k, t)]
                      | keyup _ _ => []
                      end.
Proof. unfold presses. rewrite flat_map_app. cbn [flat_map]. now rewrite app_nil_r. Qed.

Lemma keystrokes_after_presses (events : list keyboard_event) :
  map (fun stroke => (key stroke, press_time stroke)) (LoginPage.keystrokes_after events)
  = presses events.
Proof.
  induction events as [|e events IH] using rev_ind; [reflexivity|].
  rewrite keystrokes_after_snoc, presses_snoc, <- IH.
  destruct e as [k t|k t]; cbn [LoginPage.handle].
  - unfold LoginPage.handleKeyDown. now rewrite map_app.
  - rewrite app_nil_r. unfold LoginPage.handleKeyUp. rewrite map_map.
    apply map_ext. intros stroke. destruct (_ && _); reflexivity.
Qed.

(** X24.  Over any sequence of key events the login page records one
    keystroke per key-down, in order, with the key and the time of that
    event (part_000, lines 141-147), and when the clock of the events
    does not run backwards every keystroke is either
    still without release time or has a release time that is not before
    its press time: the dwell time the page then sends is not negative.
    The check of [handleSubmit] (lines 180-183) passes exactly when
    every recorded keystroke has a release time. *)
Theorem keystrokes_after_spec (events : list keyboard_event) :
  map (fun stroke => (key stroke, press_time stroke)) (LoginPage.keystrokes_after events)
  = presses events
  /\ (StronglySorted Rle (map event_time events) ->
      Forall (fun stroke =>
                release_time stroke = 0
                \/ 0 <= release_time stroke - press_time stroke)
        (LoginPage.keystrokes_after events))
  /\ (LoginPage.some_key_not_released (LoginPage.keystrokes_after events) = false
      <-> Forall (fun stroke => release_time stroke <> 0) (LoginPage.keystrokes_after events)).
Proof.
  split; [apply keystrokes_after_presses|split].
  - induction events as [|e events IH] using rev_ind; [constructor|].
    intros Hs. rewrite map_app in Hs. cbn [map] in Hs.
    assert (Hs' : StronglySorted Rle (map event_time events)).
    { clear -Hs. induction (map event_time events) as [|x l IHl]; [constructor|].
      inversion Hs as [|? ? Hl Hx]; subst. constructor; [now apply IHl|].
      apply Forall_app in Hx. tauto. }
    assert (Hle : Forall (fun x => x <= event_time e) (map event_time events)).
    { clear -Hs. induction (map event_time events) as [|x l IHl]; [constructor|].
      inversion Hs as [|? ? Hl Hx]; subst. constructor; [|now apply IHl].
      apply Forall_app in Hx as [_ Hx]. now inversion Hx. }
    specialize (IH Hs').
    assert (Hpress : Forall (fun stroke => press_time stroke <= event_time e)
                       (LoginPage.keystrokes_after events)).
    { apply Forall_forall. intros stroke Hin.
      assert (Hp : In (key stroke, press_time stroke) (presses events)).
      { rewrite <- keystrokes_after_presses. apply in_map_iff. now exists stroke. }
      unfold presses in Hp. apply in_flat_map in Hp as [e' [He' Hp]].
      destruct e' as [k' t'|k' t']; [|contradiction].
      destruct Hp as [[= _ <-]|[]].
      rewrite Forall_forall in Hle. apply (Hle (event_time (keydown k' t'))).
      apply in_map_iff. eexists. split; [reflexivity|exact He']. }
    rewrite keystrokes_after_snoc.
    destruct e as [k t|k t]; cbn [LoginPage.handle event_time] in *.
    + unfold LoginPage.handleKeyDown. apply Forall_app. split; [exact IH|].
      constructor; [|constructor]. now left.
    + unfold LoginPage.handleKeyUp. apply Forall_forall. intros stroke Hin.
      apply in_map_iff in Hin as [before [<- Hb]].
      rewrite Forall_forall in IH, Hpress.
      specialize (IH before Hb). specialize (Hpress before Hb).
      destruct (_ && _); [|exact IH]. right. cbn [release_time press_time]. lra.
  - unfold LoginPage.some_key_not_released. generalize (LoginPage.keystrokes_after events) as l.
    induction l as [|stroke l IH]; cbn [existsb].
    + split; [constructor|reflexivity].
    + pose proof (release_time_is_zero_spec stroke) as Hz.
      rewrite orb_false_iff, IH. split.
      * intros [H1 H2]. constructor; [|assumption].
        intros E. apply Hz in E. congruence.
      * intros H. inversion H as [|? ? H1 H2]; subst. split; [|assumption].
        destruct (LoginPage.release_time_is_zero stroke); [|reflexivity].
        exfalso. apply H1. now apply Hz.
Qed.

(** ** Which sessions are selected *)

Lemma StronglySorted_firstn {A : Type} (R : A -> A -> Prop) (k : nat) (l : list A) :
  StronglySorted R l -> StronglySorted R (firstn k l).
Proof.
  intros Hs. revert k. induction Hs as [|a l Hs IH Ha]; intros [|k]; simpl;
    try constructor.
  - apply IH.
  - apply Forall_forall. intros x Hx. apply firstn_In in Hx.
    rewrite Forall_forall in Ha. now apply Ha.
Qed.

Lemma StronglySorted_map {A B : Type} (R : B -> B -> Prop) (f : A -> B) (l : list A) :
  StronglySorted (fun a b => R (f a) (f b)) l -> StronglySorted R (map f l).
Proof.
  induction 1 as [|a l Hs IH Ha]; simpl; constructor; [assumption|].
  apply Forall_forall. intros y Hy. apply in_map_iff in Hy as [x [<- Hx]].
  rewrite Forall_forall in Ha. now apply Ha.
Qed.

Lemma StronglySorted_lt_NoDup (l : list nat) : StronglySorted lt l -> NoDup l.
Proof.
  induction 1 as [|a l Hs IH Ha]; constructor; [|assumption].
  intros Hin. rewrite Forall_forall in Ha. specialize (Ha a Hin). lia.
Qed.

Lemma distinct_sessions_sorted db user_id session_id :
  StronglySorted lt
    (map (fun r => ks_id (fst r))
       (Sql.distinct_on same_session
          (Sql.order_by by_id_then_recent
             (successful_session_rows db user_id session_id)))).
Proof.
  apply StronglySorted_map.
  apply (distinct_on_sorted _ (successful_session_rows_sorted db user_id session_id)).
Qed.

Lemma historical_sessions_sorted db user_id session_id :
  StronglySorted lt (historical_sessions db user_id session_id).
Proof.
  unfold historical_sessions. apply StronglySorted_map, StronglySorted_firstn.
  apply (distinct_on_sorted _ (successful_session_rows_sorted db user_id session_id)).
Qed.

(** X25.  The historical sessions come in strictly increasing order of
    their ids, so none is selected twice, and [LIMIT 5] (part_005, lines
    79-87) is the only thing that leaves a candidate out: when the user
    has at most five other sessions, each of them is selected as soon
    as the user has a successful attempt. *)
Theorem historical_sessions_complete db user_id session_id :
  StronglySorted lt (historical_sessions db user_id session_id)
  /\ NoDup (historical_sessions db user_id session_id)
  /\ ((length (nodup Nat.eq_dec (candidate_sessions db user_id session_id)) <= 5)%nat ->
      forall c,
        In c (candidate_sessions db user_id session_id) ->
        In c (historical_sessions db user_id session_id)).
Proof.
  pose proof (historical_sessions_sorted db user_id session_id) as Hs.
  split; [exact Hs|]. split; [now apply StronglySorted_lt_NoDup|].
  intros Hfive c Hc.
  set (rows := Sql.order_by by_id_then_recent
                 (successful_session_rows db user_id session_id)).
  set (L := Sql.distinct_on same_session rows).
  assert (Hincl : incl (map (fun r => ks_id (fst r)) L)
                    (nodup Nat.eq_dec (candidate_sessions db user_id session_id))).
  { intros x Hx. apply in_map_iff in Hx as [r [<- Hr]].
    apply nodup_In. apply candidate_sessions_spec. exists r. split; [|reflexivity].
    apply distinct_on_In in Hr.
    now apply (proj1 (order_by_In by_id_then_recent r _)) in Hr. }
  assert (Hlen : (length L <= 5)%nat).
  { rewrite <- (length_map (fun r => ks_id (fst r)) L).
    eapply Nat.le_trans; [|exact Hfive].
    apply NoDup_incl_length; [|exact Hincl].
    apply StronglySorted_lt_NoDup, distinct_sessions_sorted. }
  unfold historical_sessions. fold rows. fold L.
  rewrite firstn_all2 by exact Hlen.
  apply candidate_sessions_spec in Hc as [r [Hr <-]].
  destruct (distinct_on_complete rows (successful_session_rows_sorted db user_id session_id)
              r) as [y [Hy Hid]].
  { apply (order_by_In by_id_then_recent). exact Hr. }
  apply in_map_iff. exists y. split; assumption.
Qed.

(** ** The component [KeystrokeInput] *)

Lemma string_length_append (s1 s2 : string) :
  String.length (s1 ++ s2) = (String.length s1 + String.length s2)%nat.
Proof. induction s1 as [|c s1 IH]; simpl; congruence. Qed.

Lemma string_append_assoc (s1 s2 s3 : string) :
  ((s1 ++ s2) ++ s3 = s1 ++ (s2 ++ s3))%string.
Proof. induction s1 as [|c s1 IH]; simpl; congruence. Qed.

Lemma get_after_prefix (pre : string) (c : Ascii.ascii) (rest : string) :
  String.get (String.length pre) (pre ++ String c rest) = Some c.
Proof.
  exact (eq_sym (append_correct2 pre (String c rest) 0)).
Qed.

Lemma get_inside (n : nat) (s : string) :
  (n < String.length s)%nat -> exists c, String.get n s = Some c.
Proof.
  revert n. induction s as [|c s IH]; intros n Hn; simpl in Hn; [lia|].
  destruct n as [|n]; [now exists c|].
  simpl. apply IH. lia.
Qed.

Lemma combine_seq_bound {A : Type} (start : nat) (l : list A) (ik : nat * A) :
  In ik (combine (seq start (length l)) l) -> (fst ik < start + length l)%nat.
Proof.
  destruct ik as [i a]. intros H. apply in_combine_l in H. apply in_seq in H.
  cbn [fst]. lia.
Qed.

Lemma combine_app_same_length {A B : Type} (l1 l2 : list A) (l1' l2' : list B) :
  length l1 = length l1' ->
  combine (l1 ++ l2) (l1' ++ l2') = combine l1 l1' ++ combine l2 l2'.
Proof.
  revert l1'. induction l1 as [|a l1 IH]; intros [|b l1'] H; try discriminate;
    [reflexivity|].
  simpl. f_equal. apply IH. now injection H.
Qed.

Lemma release_last_snoc (releaseTime : R) (prev : list KeystrokeData)
  (stroke : KeystrokeData) :
  KeystrokeInput.release_last releaseTime (prev ++ [stroke])
  = prev ++ [{| key := key stroke; press_time := press_time stroke;
                release_time := releaseTime |}].
Proof.
  unfold KeystrokeInput.release_last.
  rewrite length_app. cbn [length].
  replace (length prev + 1 - 1)%nat with (length prev) by lia.
  rewrite seq_app. cbn [seq Nat.add].
  rewrite combine_app_same_length by apply length_seq.
  rewrite map_app. cbn [combine map fst snd]. rewrite Nat.eqb_refl.
  f_equal.
  transitivity (map snd (combine (seq 0 (length prev)) prev));
    [|apply map_snd_combine_same_length, length_seq].
  apply map_ext_in. intros ik Hik.
  apply combine_seq_bound in Hik.
  destruct (Nat.eqb_spec (fst ik) (length prev)); [lia|reflexivity].
Qed.

Lemma release_last_keys (releaseTime : R) (prev : list KeystrokeData) :
  map key (KeystrokeInput.release_last releaseTime prev) = map key prev
  /\ map press_time (KeystrokeInput.release_last releaseTime prev) = map press_time prev.
Proof.
  unfold KeystrokeInput.release_last.
  split; rewrite map_map.
  - transitivity (map key (map snd (combine (seq 0 (length prev)) prev)));
      [|now rewrite map_snd_combine_same_length by apply length_seq].
    rewrite map_map. apply map_ext. intros ik. destruct (Nat.eqb _ _); reflexivity.
  - transitivity (map press_time (map snd (combine (seq 0 (length prev)) prev)));
      [|now rewrite map_snd_combine_same_length by apply length_seq].
    rewrite map_map. apply map_ext. intros ik. destruct (Nat.eqb _ _); reflexivity.
Qed.

(** A typing without a slip, from any state whose input is a prefix of
    the text. *)
Lemma run_typed (pre : string) (ks : list KeystrokeData) (err : string)
  (strokes : list (Ascii.ascii * R * R)) :
  KeystrokeInput.run (pre ++ typed_text strokes) (typed strokes)
    {| KeystrokeInput.input := pre;
       KeystrokeInput.keystrokes := ks;
       KeystrokeInput.error := err |}
  = {| KeystrokeInput.input := pre ++ typed_text strokes;
       KeystrokeInput.keystrokes := ks ++ typed_keystrokes strokes;
       KeystrokeInput.error := match strokes with [] => err | _ => "" end |}.
Proof.
  revert pre ks err. induction strokes as [|[[c p] r] strokes IH]; intros pre ks err.
  - unfold typed_text, typed_keystrokes. cbn.
    rewrite app_nil_r. f_equal.
    induction pre as [|a pre IHp]; simpl; congruence.
  - unfold KeystrokeInput.run. cbn [typed flat_map fst snd app fold_left].
    fold (typed strokes).
    change (typed_text ((c, p, r) :: strokes)) with (String c (typed_text strokes)).
    set (text := (pre ++ String c (typed_text strokes))%string).
    assert (Hlen : String.length text
                   = (String.length pre + S (String.length (typed_text strokes)))%nat)
      by (unfold text; now rewrite string_length_append).
    assert (Hdown : KeystrokeInput.handle text
                      {| KeystrokeInput.input := pre;
                         KeystrokeInput.keystrokes := ks;
                         KeystrokeInput.error := err |}
                      (keydown (String c "") p)
                    = {| KeystrokeInput.input := pre;
                         KeystrokeInput.keystrokes :=
                           ks ++ [{| key := String c "";
                                     press_time := p; release_time := 0 |}];
                         KeystrokeInput.error := "" |}).
    { cbn [KeystrokeInput.handle]. unfold KeystrokeInput.handleKeyDown.
      cbn [KeystrokeInput.input KeystrokeInput.keystrokes].
      destruct (Nat.leb_spec (String.length text) (String.length pre)) as [H|_]; [lia|].
      unfold KeystrokeInput.expectedChar, text. rewrite get_after_prefix.
      now rewrite String.eqb_refl. }
    rewrite Hdown.
    assert (Hup : KeystrokeInput.handle text
                    {| KeystrokeInput.input := pre;
                       KeystrokeInput.keystrokes :=
                         ks ++ [{| key := String c "";
                                   press_time := p; release_time := 0 |}];
                       KeystrokeInput.error := "" |}
                    (keyup (String c "") r)
                  = {| KeystrokeInput.input := pre ++ String c "";
                       KeystrokeInput.keystrokes :=
                         ks ++ [{| key := String c "";
                                   press_time := p; release_time := r |}];
                       KeystrokeInput.error := "" |}).
    { cbn [KeystrokeInput.handle]. unfold KeystrokeInput.handleKeyUp.
      cbn [KeystrokeInput.input KeystrokeInput.keystrokes KeystrokeInput.error].
      destruct (Nat.ltb_spec (String.length text) (String.length pre)) as [H|_]; [lia|].
      now rewrite release_last_snoc. }
    rewrite Hup.
    assert (Htext : text = ((pre ++ String c "") ++ typed_text strokes)%string)
      by (unfold text; now rewrite string_append_assoc).
    pose proof (IH (pre ++ String c "")%string
                  (ks ++ [{| key := String c ""; press_time := p; release_time := r |}])
                  ""%string) as Hrest.
    unfold KeystrokeInput.run in Hrest. rewrite <- Htext in Hrest. rewrite Hrest.
    f_equal.
    + unfold typed_keystrokes. cbn [map fst snd]. now rewrite <- app_assoc.
    + now destruct strokes.
Qed.

(** X26.  A typing of the text without a slip is recorded as typed
    (part_001, lines 27-57): when each character of the text is pressed
    and released in turn, with no other key event, the component ends
    with the text as input, one keystroke per character carrying its
    press and release times, and no error, and it hands exactly those
    keystrokes to [onComplete]. *)
Theorem typing_without_slip (strokes : list (Ascii.ascii * R * R)) :
  KeystrokeInput.run (typed_text strokes) (typed strokes) KeystrokeInput.initial
  = {| KeystrokeInput.input := typed_text strokes;
       KeystrokeInput.keystrokes := typed_keystrokes strokes;
       KeystrokeInput.error := "" |}
  /\ KeystrokeInput.onComplete (typed_text strokes)
       (KeystrokeInput.run (typed_text strokes) (typed strokes) KeystrokeInput.initial)
     = Some (typed_keystrokes strokes).
Proof.
  assert (H : KeystrokeInput.run (typed_text strokes) (typed strokes) KeystrokeInput.initial
              = {| KeystrokeInput.input := typed_text strokes;
                   KeystrokeInput.keystrokes := typed_keystrokes strokes;
                   KeystrokeInput.error := "" |}).
  { pose proof (run_typed "" [] "" strokes) as Hr. cbn [String.append app] in Hr.
    unfold KeystrokeInput.initial. rewrite Hr. f_equal. now destruct strokes. }
  split; [exact H|].
  rewrite H. unfold KeystrokeInput.onComplete. cbn [KeystrokeInput.input].
  now rewrite Nat.eqb_refl.
Qed.

Lemma run_snoc (text : string) (events : list keyboard_event) (e : keyboard_event)
  (s : KeystrokeInput.state) :
  KeystrokeInput.run text (events ++ [e]) s
  = KeystrokeInput.handle text (KeystrokeInput.run text events s) e.
Proof. unfold KeystrokeInput.run. now rewrite fold_left_app. Qed.

(** X27.  Whatever the events, the component records only keys it
    expected: every recorded keystroke is one character of the text,
    and there is at most one keystroke per key-down (part_001, lines
    33-45); a key-up changes the release time of the last keystroke
    only (lines 51-55). *)
Theorem recorded_keys_are_expected (text : string) (events : list keyboard_event) :
  Forall (fun stroke =>
            exists i c, String.get i text = Some c /\ key stroke = String c "")
    (KeystrokeInput.keystrokes (KeystrokeInput.run text events KeystrokeInput.initial))
  /\ (length (KeystrokeInput.keystrokes
                (KeystrokeInput.run text events KeystrokeInput.initial))
      <= length (presses events))%nat
  /\ (forall releaseTime prev stroke,
        KeystrokeInput.release_last releaseTime (prev ++ [stroke])
        = prev ++ [{| key := key stroke; press_time := press_time stroke;
                      release_time := releaseTime |}]).
Proof.
  split; [|split; [|intros; apply release_last_snoc]].
  - induction events as [|e events IH] using rev_ind; [constructor|].
    rewrite run_snoc.
    set (s := KeystrokeInput.run text events KeystrokeInput.initial) in *.
    destruct e as [k t|k t]; cbn [KeystrokeInput.handle].
    + unfold KeystrokeInput.handleKeyDown.
      destruct (Nat.leb_spec (String.length text) (String.length (KeystrokeInput.input s)))
        as [_|Hlt]; [exact IH|].
      destruct (String.eqb_spec k (KeystrokeInput.expectedChar text (KeystrokeInput.input s)))
        as [Ek|_]; cbn [negb KeystrokeInput.keystrokes]; [|exact IH].
      apply Forall_app. split; [exact IH|]. constructor; [|constructor].
      cbn [key]. subst k. unfold KeystrokeInput.expectedChar.
      destruct (get_inside _ _ Hlt) as [c Hc]. rewrite Hc.
      exists (String.length (KeystrokeInput.input s)), c. now split.
    + unfold KeystrokeInput.handleKeyUp.
      destruct (String.length text <? String.length (KeystrokeInput.input s))%nat;
        [exact IH|].
      cbn [KeystrokeInput.keystrokes].
      destruct (release_last_keys t (KeystrokeInput.keystrokes s)) as [Hk _].
      apply Forall_forall. intros stroke Hin.
      assert (Hkey : In (key stroke) (map key (KeystrokeInput.keystrokes s))).
      { rewrite <- Hk. apply in_map_iff. now exists stroke. }
      apply in_map_iff in Hkey as [before [Hb Hin']].
      rewrite Forall_forall in IH. destruct (IH before Hin') as [i [c [Hg Hc]]].
      exists i, c. split; [assumption|congruence].
  - induction events as [|e events IH] using rev_ind; [simpl; lia|].
    rewrite run_snoc, presses_snoc, length_app.
    set (s := KeystrokeInput.run text events KeystrokeInput.initial) in *.
    destruct e as [k t|k t]; cbn [KeystrokeInput.handle length].
    + unfold KeystrokeInput.handleKeyDown.
      destruct (String.length text <=? String.length (KeystrokeInput.input s))%nat;
        [lia|].
      destruct (negb _); cbn [KeystrokeInput.keystrokes]; [lia|].
      rewrite length_app. simpl. lia.
    + unfold KeystrokeInput.handleKeyUp.
      destruct (String.length text <? String.length (KeystrokeInput.input s))%nat;
        [lia|].
      cbn [KeystrokeInput.keystrokes].
      destruct (release_last_keys t (KeystrokeInput.keystrokes s)) as [Hk _].
      apply (f_equal (@length string)) in Hk. rewrite !length_map in Hk. lia.
Qed.

(** ** The normalizer of square_silence and the one of flat_meadow *)

Lemma seq_nth_combine (d f : list R) :
  length d = length f ->
  map (fun k => (nth k d 0, nth k f 0)) (seq 0 (length d)) = combine d f.
Proof.
  revert f. induction d as [|x d IH]; intros [|y f] H; try discriminate; [reflexivity|].
  cbn [length seq map combine nth]. f_equal.
  rewrite <- seq_shift, map_map. cbn [nth]. apply IH. now injection H.
Qed.

Lemma flat_map_ext_in {A B : Type} (g h : A -> list B) (l : list A) :
  (forall x, In x l -> g x = h x) -> flat_map g l = flat_map h l.
Proof.
  induction l as [|a l IH]; intros H; [reflexivity|].
  cbn [flat_map]. rewrite (H a) by now left.
  rewrite IH; [reflexivity|]. intros x Hx. apply H. now right.
Qed.

Lemma flat_map_of_map {A B C : Type} (g : A -> B) (h : B -> list C) (l : list A) :
  flat_map h (map g l) = flat_map (fun x => h (g x)) l.
Proof. induction l as [|a l IH]; simpl; congruence. Qed.

Lemma nth_map_Some (k : nat) (l : list R) :
  (k < length l)%nat -> nth k (map Some l) None = Some (nth k l 0).
Proof.
  intros H. rewrite (nth_indep _ None (Some 0)) by now rewrite length_map.
  apply (map_nth Some l 0 k).
Qed.

Lemma normalized_value_own (series : list R) (k : nat) :
  (k < length series)%nat ->
  SquareSilence.normalized_value (map Some series)
    (SquareSilence.mean_of (map Some series)) (SquareSilence.std_of (map Some series)) k
  = Some (own_zscore series (nth k series 0)).
Proof.
  intros Hk. unfold SquareSilence.normalized_value, SquareSilence.mean_of,
    SquareSilence.std_of, own_zscore.
  rewrite non_null_map_Some, nth_map_Some by assumption.
  destruct (Sql.stddev series) as [s|]; [|reflexivity].
  destruct (Rgt_dec s 0); [|reflexivity].
  destruct series as [|x series]; [simpl in Hk; lia|]. reflexivity.
Qed.

(** X29.  The normalizer of square_silence (lines 25-62), on two
    arrays without NULL of one length, returns the z-scores of the
    keystrokes interleaved, dwell then flight: each value minus the
    mean of its own series, divided by the sample deviation of that
    series alone, and 0 where that deviation is NULL (one keystroke) or
    not positive (a constant series). *)
Theorem square_silence_normalize_spec (d f : list R) :
  length d = length f ->
  SquareSilence.normalize_keystroke_pattern (map Some d) (map Some f)
  = flat_map (fun t => [Some (own_zscore d (fst t)); Some (own_zscore f (snd t))])
      (combine d f).
Proof.
  intros Hl. unfold SquareSilence.normalize_keystroke_pattern.
  rewrite length_map, <- (seq_nth_combine d f Hl), flat_map_of_map.
  apply flat_map_ext_in. intros k Hk. apply in_seq in Hk. cbn [fst snd].
  rewrite !normalized_value_own by lia. reflexivity.
Qed.

Lemma square_silence_normalize_spec_witness :
  SquareSilence.normalize_keystroke_pattern (map Some [100; 200]) (map Some [0; 50])
  = flat_map (fun t => [Some (own_zscore [100; 200] (fst t));
                        Some (own_zscore [0; 50] (snd t))])
      (combine [100; 200] [0; 50]).
Proof.
  apply square_silence_normalize_spec. reflexivity.
Defined.

Lemma sqrt_ratio_inverse (N : R) :
  0 < N -> sqrt ((N + 1) / N) * sqrt (N / (N + 1)) = 1.
Proof.
  intros HN. rewrite <- sqrt_mult.
  - replace ((N + 1) / N * (N / (N + 1))) with 1 by (field; lra). apply sqrt_1.
  - apply Rmult_le_pos; [lra|]. left. apply Rinv_0_lt_compat. lra.
  - apply Rmult_le_pos; [lra|]. left. apply Rinv_0_lt_compat. lra.
Qed.

(** One column of the later normalizer against the earlier one. *)
Lemma zscore_ratio (series : list R) (std : R) (x : R) :
  (2 <= length series)%nat ->
  std = Rmax (sqrt (INR (length series) / (INR (length series) + 1))
              * series_sample_std series) min_std ->
  min_std <= sqrt (INR (length series) / (INR (length series) + 1))
             * series_sample_std series ->
  (x - series_mean series) / std
  = sqrt ((INR (length series) + 1) / INR (length series)) * own_zscore series x.
Proof.
  intros Hn -> Hfloor.
  assert (HN : 2 <= INR (length series))
    by (change 2 with (INR 2); now apply le_INR).
  set (N := INR (length series)) in *.
  rewrite Rmax_left by assumption.
  pose proof (sqrt_ratio_inverse N ltac:(lra)) as Hinv.
  set (a := sqrt (N / (N + 1))) in *. set (c := sqrt ((N + 1) / N)) in *.
  assert (Ha : 0 <= a) by apply sqrt_pos.
  assert (Hsd0 : 0 <= series_sample_std series) by apply sqrt_pos.
  assert (Hmin : 0 < min_std) by (unfold min_std; lra).
  assert (Ha0 : a <> 0) by (intros E; rewrite E in Hfloor; lra).
  assert (Hsd : series_sample_std series > 0).
  { destruct Hsd0 as [H|H]; [exact H|]. rewrite <- H in Hfloor. lra. }
  unfold own_zscore. rewrite stddev_eq by assumption.
  fold (series_mean series). fold (series_sample_std series).
  destruct (Rgt_dec (series_sample_std series) 0) as [_|Hn']; [|contradiction].
  assert (Hc : c = / a).
  { apply Rmult_eq_reg_r with a; [|assumption]. rewrite Rinv_l by assumption. exact Hinv. }
  rewrite Hc. field. split; lra.
Qed.

(** X30.  How the normalizer of flat_meadow differs from the one of
    square_silence it replaces: on two arrays of [n] values in range,
    [n] at least 2, whose deviations stay above the floor, the later
    function pairs the z-scores the earlier one interleaves, and each
    z-score is the earlier one times the square root of [(n + 1) / n],
    the effect of taking [stddev] over the cross join (flat_meadow,
    lines 58-62, against square_silence, lines 39-46). *)
Theorem normalizers_compared (d f : list R) :
  length d = length f -> (2 <= length d)%nat ->
  Forall (fun v => 0 <= v <= 5000) d -> Forall (fun v => 0 <= v <= 5000) f ->
  min_std <= sqrt (INR (length d) / (INR (length d) + 1)) * series_sample_std d ->
  min_std <= sqrt (INR (length f) / (INR (length f) + 1)) * series_sample_std f ->
  normalize_keystroke_pattern (map Some d) (map Some f)
  = Some (pattern_of
            (map (fun t =>
                    (sqrt ((INR (length d) + 1) / INR (length d)) * own_zscore d (fst t),
                     sqrt ((INR (length d) + 1) / INR (length d)) * own_zscore f (snd t)))
               (combine d f))).
Proof.
  intros Hl Hn Hd Hf Hfd Hff.
  unfold normalize_keystroke_pattern.
  rewrite !validate_in_range by assumption.
  rewrite lengths_differ_same_length by assumption.
  rewrite normalize_equal_lengths_validated by assumption.
  apply (f_equal Some), (f_equal pattern_of), map_ext. intros [x y]. cbn [fst snd].
  apply (f_equal2 pair).
  - apply zscore_ratio; [assumption| |assumption].
    unfold dwell_std, statistics_rows.
    rewrite (cross_column_stddev _ d); [reflexivity|assumption| |].
    + rewrite length_map, length_prod. now rewrite <- Hl.
    + intros g. rewrite map_map, sum_cross_fst. now rewrite <- Hl.
  - rewrite Hl. apply zscore_ratio; [lia| |assumption].
    unfold flight_std, statistics_rows.
    rewrite (cross_column_stddev _ f); [reflexivity|lia| |].
    + rewrite length_map, length_prod. now rewrite Hl.
    + intros g. rewrite map_map, sum_cross_snd. now rewrite Hl.
Qed.

Lemma normalizers_compared_witness :
  normalize_keystroke_pattern (map Some [100; 200]) (map Some [0; 50])
  = Some (pattern_of
            (map (fun t =>
                    (sqrt ((INR 2 + 1) / INR 2) * own_zscore [100; 200] (fst t),
                     sqrt ((INR 2 + 1) / INR 2) * own_zscore [0; 50] (snd t)))
               (combine [100; 200] [0; 50]))).
Proof.
  assert (Hr : 1 / 2 < sqrt (INR 2 / (INR 2 + 1))) by (apply sqrt_lower; simpl; lra).
  assert (Hd : 1 < series_sample_std [100; 200]).
  { unfold series_sample_std, series_mean. simpl. apply sqrt_lower; lra. }
  assert (Hf : 1 < series_sample_std [0; 50]).
  { unfold series_sample_std, series_mean. simpl. apply sqrt_lower; lra. }
  apply (normalizers_compared [100; 200] [0; 50]).
  - reflexivity.
  - simpl. lia.
  - repeat constructor; lra.
  - repeat constructor; lra.
  - cbn [length]. unfold min_std. nra.
  - cbn [length]. unfold min_std. nra.
Defined.
